(** * Geodesy: great-circle distance by Haversine, SLC and Vincenty

    A shallow embedding of [Geodesy.h] / [Geodesy.cpp].

    The three methods are straight-line [double] arithmetic (plus one
    bounded loop in [Vincenty]).  The embedding is written once, over an
    interface [DoubleOps] that names the operations the C++ code applies
    to a [double]; what a [double] is and how the operations round is left
    to the instance.

    - Everything that concerns control flow (the loop, its exits, the
      guards, [try]/[catch]) is proved for every instance, hence also for
      IEEE-754 binary64.
    - The numeric identities are proved in the instance [RealArith]: exact
      real arithmetic.  Rounding is not modelled; a statement proved there
      says what the formulas compute, not how a binary64 result rounds.
    - The instance [XArith] adds NaN and the two infinities to the exact
      reals, with the special-value rules of IEEE-754 / C Annex F.  It is
      used to run the code on malformed inputs.
    - The instance [TrapArith] makes the division by zero an error.  It is
      used to show that the code forms no quotient by zero. *)

From Stdlib Require Import ZArith QArith Qreals Reals Machin RNsatz Lra Lia Psatz String Bool.

(** ** The arithmetic the code is written in *)

Declare Scope double_scope.
Delimit Scope double_scope with D.

Class DoubleOps (D : Type) : Type := {
  (** a numeric literal of the source, converted to [double] *)
  lit   : Q -> D;
  (** [std::numbers::pi] *)
  π     : D;
  dadd  : D -> D -> D;
  dsub  : D -> D -> D;
  dmul  : D -> D -> D;
  ddiv  : D -> D -> D;
  (** [operator==] and [operator<] on [double] *)
  deqb  : D -> D -> bool;
  dltb  : D -> D -> bool;
  (** [<cmath>] *)
  sin   : D -> D;
  cos   : D -> D;
  tan   : D -> D;
  asin  : D -> D;
  acos  : D -> D;
  atan  : D -> D;
  atan2 : D -> D -> D;
  sqrt  : D -> D;
  fabs  : D -> D
}.

Arguments lit {D _} q%_Q.

Infix "+" := dadd : double_scope.
Infix "-" := dsub : double_scope.
Infix "*" := dmul : double_scope.
Infix "/" := ddiv : double_scope.
Infix "=?" := deqb (at level 70) : double_scope.
Infix "<?" := dltb (at level 70) : double_scope.
Notation "x '!=?' y" := (negb (deqb x y)) (at level 70) : double_scope.

(** ** [enum class Units { SI, US }] *)

Inductive Units : Set := SI | US.

(** ** [try { ... } catch (...) { ... }]

    A block either returns a value or throws; the catch-all handler turns
    every throw into the handler's value. *)

Inductive completion (A : Type) : Type :=
| Return (a : A)
| Throw (what : string).

Arguments Return {A} a.
Arguments Throw {A} what.

Definition try_catch_all {A : Type} (body : completion A) (handler : A) : A :=
  match body with
  | Return a => a
  | Throw _ => handler
  end.

(** ** The class [Geodesy] *)

Section Geodesy.

Context {D : Type} {ops : DoubleOps D}.
Local Open Scope double_scope.

(** Earth mean radius, km *)
Definition meanR : D := lit 6371.009.

(** miles to kilometers conversion factor *)
Definition mi2km : D := lit 1.609344.

Definition toRad : D := π / lit 180.0.

(** [unit == Units::SI ? 1.0 : 1.0 / mi2km] *)
Definition unit_factor (unit : Units) : D :=
  match unit with
  | SI => lit 1.0
  | US => lit 1.0 / mi2km
  end.

(** *** Haversine *)

Definition Haversine_body (lat1 lon1 lat2 lon2 : D) (unit : Units)
  : completion D :=
  let φ1 := lat1 * toRad in
  let φ2 := lat2 * toRad in
  let a := sin ((φ2 - φ1) / lit 2) in
  let a := a * a in
  let b := sin (((lon2 - lon1) / lit 2) * toRad) in
  let b := b * (b * cos φ1 * cos φ2) in
  (* central angle *)
  let ca := lit 2 * asin (sqrt (a + b)) in
  Return (ca * meanR * unit_factor unit).

Definition Haversine (lat1 lon1 lat2 lon2 : D) (unit : Units) : D :=
  try_catch_all (Haversine_body lat1 lon1 lat2 lon2 unit) (lit (-1)).

(** *** Spherical Law of Cosines *)

Definition SLC_body (lat1 lon1 lat2 lon2 : D) (unit : Units)
  : completion D :=
  let φ1 := lat1 * toRad in
  let φ2 := lat2 * toRad in
  let Δλ := (lon1 - lon2) * toRad in
  (* central angle *)
  let ca := acos (sin φ1 * sin φ2 + cos φ1 * cos φ2 * cos Δλ) in
  Return (ca * meanR * unit_factor unit).

Definition SLC (lat1 lon1 lat2 lon2 : D) (unit : Units) : D :=
  try_catch_all (SLC_body lat1 lon1 lat2 lon2 unit) (lit (-1)).

(** *** Vincenty inverse (ellipsoid) *)

(** WGS84 Earth equatorial radius (m), flattening, polar radius *)
Definition a : D := lit 6378137.0.
Definition f : D := lit 1.0 / lit 298.257223563.
Definition b : D := a * (lit 1.0 - f).

Definition ε : D := lit 1e-12.

(** The variables declared before the loop and assigned in its body. *)
Record loop_vars : Type := {
  λ : D; λPrev : D;
  sinσ : D; cosσ : D; σ : D; sinα : D; cos2α : D; cos2σM : D;
  u2 : D; A : D; B : D; Δσ : D
}.

(** How one execution of the loop body ends: at [return 0.0], or at the
    convergence test with all variables assigned. *)
Inductive body_exit : Type :=
| Returned (v : D)
| Tested (vs : loop_vars).

(** The body of the [do] loop, from its first statement to the
    assignment of [λ].  Of the loop variables it reads only [λ]. *)
Definition loop_body (Δλ sinU1 cosU1 sinU2 cosU2 : D) (λ : D) : body_exit :=
  let sinλ := sin λ in
  let cosλ := cos λ in
  let term1 := cosU2 * sinλ in
  let term2 := cosU1 * sinU2 - sinU1 * cosU2 * cosλ in
  let sinσ := sqrt (term1 * term1 + term2 * term2) in
  if sinσ =? lit 0.0 then Returned (lit 0.0) (* coincident points *)
  else
  let cosσ := sinU1 * sinU2 + cosU1 * cosU2 * cosλ in
  let σ := atan2 sinσ cosσ in
  let sinα := (cosU1 * cosU2 * sinλ) / sinσ in
  let sin2α := sinα * sinα in
  let cos2α := lit 1.0 - sin2α in
  let cos2σM :=
    if cos2α !=? lit 0.0
    then cosσ - (lit 2.0 * sinU1 * sinU2) / cos2α
    else lit 0.0 in
  let u2 := (cos2α * (a * a - b * b)) / (b * b) in
  let A := lit 1.0 + (u2 / lit 16384.0) *
           (lit 4096.0 + u2 * (lit (-768.0) + u2 * (lit 320.0 - lit 175.0 * u2))) in
  let B := (u2 / lit 1024.0) *
           (lit 256.0 + u2 * (lit (-128.0) + u2 * (lit 74.0 - lit 47.0 * u2))) in
  let cos2αM2 := cos2σM * cos2σM in
  let Δσ := B * sinσ * (cos2σM + (B / lit 4.0) *
              (cosσ * (lit (-1.0) + lit 2.0 * cos2αM2) -
               (B / lit 6.0) * cos2σM * (lit (-3.0) + lit 4.0 * sinσ * sinσ) *
               (lit (-3.0) + lit 4.0 * cos2αM2))) in
  let C := (f / lit 16.0) * cos2α * (lit 4.0 + f * (lit 4.0 - lit 3.0 * cos2α)) in
  let λPrev := λ in
  let λ := Δλ + (lit 1.0 - C) * f * sinα *
           (σ + C * sinσ * (cos2σM + C * cosσ * (lit (-1.0) + lit 2.0 * cos2αM2))) in
  Tested {| λ := λ; λPrev := λPrev;
            sinσ := sinσ; cosσ := cosσ; σ := σ; sinα := sinα;
            cos2α := cos2α; cos2σM := cos2σM;
            u2 := u2; A := A; B := B; Δσ := Δσ |}.

(** How the [do { ... } while (--iterLimit > 0)] statement ends. *)
Inductive loop_exit : Type :=
| LoopReturn (v : D)                          (* [return 0.0] inside the body *)
| LoopBreak (iterLimit : Z) (vs : loop_vars)  (* [break] *)
| LoopEnd (iterLimit : Z) (vs : loop_vars).   (* the condition became false *)

(** The loop itself.  [iterLimit] is the C++ [int]; [fuel] bounds the
    number of body executions the model is willing to follow, and [None]
    means that the loop is still running when the fuel is used up. *)
Fixpoint do_while (Δλ sinU1 cosU1 sinU2 cosU2 : D)
    (fuel : nat) (iterLimit : Z) (λ0 : D) : option loop_exit :=
  match fuel with
  | O => None
  | S fuel =>
      match loop_body Δλ sinU1 cosU1 sinU2 cosU2 λ0 with
      | Returned v => Some (LoopReturn v)
      | Tested vs =>
          if fabs (λ vs - λPrev vs) <? ε then Some (LoopBreak iterLimit vs)
          else
            let iterLimit := (iterLimit - 1)%Z in
            if (iterLimit >? 0)%Z
            then do_while Δλ sinU1 cosU1 sinU2 cosU2 fuel iterLimit (λ vs)
            else Some (LoopEnd iterLimit vs)
      end
  end.

(** What follows the loop inside the [try] block. *)
Definition after_loop (unit : Units) (ex : loop_exit) : completion D :=
  match ex with
  | LoopReturn v => Return v
  | LoopBreak iterLimit vs | LoopEnd iterLimit vs =>
      if (iterLimit =? 0)%Z then Throw "Vincenty: No convergence"
      else
        let s := b * A vs * (σ vs - Δσ vs) / lit 1000.0 in
        Return (s * unit_factor unit)
  end.

(** The reduced-latitude prelude: the values the loop is run with. *)
Definition Vincenty_loop (fuel : nat) (lat1 lon1 lat2 lon2 : D)
  : option loop_exit :=
  let φ1 := lat1 * toRad in
  let φ2 := lat2 * toRad in
  let Δλ := (lon2 - lon1) * toRad in
  let U1 := atan ((lit 1 - f) * tan φ1) in
  let U2 := atan ((lit 1 - f) * tan φ2) in
  let sinU1 := sin U1 in
  let cosU1 := cos U1 in
  let sinU2 := sin U2 in
  let cosU2 := cos U2 in
  let λ := Δλ in
  let iterLimit := 100%Z in
  do_while Δλ sinU1 cosU1 sinU2 cosU2 fuel iterLimit λ.

(** [Vincenty_fuel n] is [Some d] when the call returns [d] after at most
    [n] executions of the loop body. *)
Definition Vincenty_fuel (fuel : nat) (lat1 lon1 lat2 lon2 : D) (unit : Units)
  : option D :=
  match Vincenty_loop fuel lat1 lon1 lat2 lon2 with
  | None => None
  | Some ex => Some (try_catch_all (after_loop unit ex) (lit (-1)))
  end.

(** [Geodesy::Vincenty].  The limit starts at 100, so 100 body executions
    are followed; they always end the loop ([Vincenty_returns]), and the
    second branch below is never taken. *)
Definition Vincenty (lat1 lon1 lat2 lon2 : D) (unit : Units) : D :=
  match Vincenty_fuel 100 lat1 lon1 lat2 lon2 unit with
  | Some d => d
  | None => lit 0.0
  end.

End Geodesy.

(** ** Vocabulary for the loop of [Vincenty] *)

Section LoopVocabulary.

Context {D : Type} {ops : DoubleOps D}.
Local Open Scope double_scope.

(** The values the prelude of [Vincenty] hands to the loop. *)
Definition Δλ_of (lon1 lon2 : D) : D := (lon2 - lon1) * toRad.
Definition U_of (lat : D) : D := atan ((lit 1 - f) * tan (lat * toRad)).

Variables Δλ sinU1 cosU1 sinU2 cosU2 : D.

(** The sine of σ that a body execution started with [λ0] computes. *)
Definition sinσ_of (λ0 : D) : D :=
  let term1 := cosU2 * sin λ0 in
  let term2 := cosU1 * sinU2 - sinU1 * cosU2 * cos λ0 in
  sqrt (term1 * term1 + term2 * term2).

(** The convergence test [std::fabs(λ - λPrev) < ε]. *)
Definition converged (vs : loop_vars) : bool :=
  fabs (λ vs - λPrev vs) <? ε.

(** [nth_λ k λ0 = Some l]: a loop without iteration limit, started with
    [λ0], begins a body execution number [k + 1], and [λ] is [l] there.
    [None]: the loop was left before (by [return] or by [break]). *)
Fixpoint nth_λ (k : nat) (λ0 : D) : option D :=
  match k with
  | O => Some λ0
  | S k =>
      match loop_body Δλ sinU1 cosU1 sinU2 cosU2 λ0 with
      | Returned _ => None
      | Tested vs => if converged vs then None else nth_λ k (λ vs)
      end
  end.

(** The shape of a loop exit after [n] body executions, for a loop
    started with the limit [limit]. *)
Definition exit_after (limit : Z) (n : nat) (ex : loop_exit) : Prop :=
  match ex with
  | LoopReturn v => v = lit 0.0
  | LoopBreak iterLimit vs =>
      converged vs = true /\ iterLimit = (limit - Z.of_nat n + 1)%Z
  | LoopEnd iterLimit vs =>
      converged vs = false /\ iterLimit = 0%Z /\ Z.of_nat n = limit
  end.

End LoopVocabulary.

(** ** Exact real arithmetic *)

Definition Req_bool (x y : R) : bool := if Req_dec_T x y then true else false.
Definition Rlt_bool (x y : R) : bool := if Rlt_dec x y then true else false.

(** [atan2(y, x)]: the angle of the point [(x, y)], in (-π, π]. *)
Definition Ratan2 (y x : R) : R :=
  if Rlt_dec 0 x then Ratan.atan (y / x)
  else if Rlt_dec x 0 then
    if Rle_dec 0 y then Ratan.atan (y / x) + PI else Ratan.atan (y / x) - PI
  else
    if Rlt_dec 0 y then PI / 2
    else if Rlt_dec y 0 then - (PI / 2)
    else 0.

(** [tan] is the quotient of sine and cosine; where the cosine vanishes
    (no [double] is such a point) it is what Rocq's total division makes
    of it. *)
#[export] Instance RealArith : DoubleOps R := {|
  lit := Q2R;
  π := PI;
  dadd := Rplus;
  dsub := Rminus;
  dmul := Rmult;
  ddiv := Rdiv;
  deqb := Req_bool;
  dltb := Rlt_bool;
  sin := Rtrigo_def.sin;
  cos := Rtrigo_def.cos;
  tan := Rtrigo1.tan;
  asin := Ratan.asin;
  acos := Ratan.acos;
  atan := Ratan.atan;
  atan2 := Ratan2;
  sqrt := R_sqrt.sqrt;
  fabs := Rbasic_fun.Rabs
|}.

(** ** Exact reals with the IEEE-754 special values

    A [double] of this arithmetic is NaN, an infinity or a real number.
    Finite results are exact (no rounding, no overflow, one zero); the
    special values follow IEEE-754 and Annex F of the C standard: NaN
    propagates through every operation and makes every comparison false,
    an operation outside its domain gives NaN. *)

Inductive xdouble : Type :=
| NaN
| PInf
| NInf
| Fin (r : R).

Definition xneg (x : xdouble) : xdouble :=
  match x with
  | NaN => NaN
  | PInf => NInf
  | NInf => PInf
  | Fin r => Fin (- r)
  end.

(** The infinity with the sign of [r] when [positive], with the opposite
    sign otherwise; [r] is not zero. *)
Definition signed_inf (positive : bool) (r : R) : xdouble :=
  if Rlt_dec 0 r then (if positive then PInf else NInf)
  else (if positive then NInf else PInf).

Definition xadd (x y : xdouble) : xdouble :=
  match x, y with
  | NaN, _ | _, NaN => NaN
  | PInf, NInf | NInf, PInf => NaN
  | PInf, _ | _, PInf => PInf
  | NInf, _ | _, NInf => NInf
  | Fin r, Fin s => Fin (r + s)
  end.

Definition xsub (x y : xdouble) : xdouble := xadd x (xneg y).

Definition xmul (x y : xdouble) : xdouble :=
  match x, y with
  | NaN, _ | _, NaN => NaN
  | PInf, PInf | NInf, NInf => PInf
  | PInf, NInf | NInf, PInf => NInf
  | PInf, Fin r | Fin r, PInf =>
      if Req_dec_T r 0 then NaN else signed_inf true r
  | NInf, Fin r | Fin r, NInf =>
      if Req_dec_T r 0 then NaN else signed_inf false r
  | Fin r, Fin s => Fin (r * s)
  end.

Definition xdiv (x y : xdouble) : xdouble :=
  match x, y with
  | NaN, _ | _, NaN => NaN
  | (PInf | NInf), (PInf | NInf) => NaN
  | PInf, Fin s => if Rlt_dec s 0 then NInf else PInf
  | NInf, Fin s => if Rlt_dec s 0 then PInf else NInf
  | Fin _, (PInf | NInf) => Fin 0
  | Fin r, Fin s =>
      if Req_dec_T s 0
      then (if Req_dec_T r 0 then NaN else signed_inf true r)
      else Fin (r / s)
  end.

Definition xeqb (x y : xdouble) : bool :=
  match x, y with
  | PInf, PInf | NInf, NInf => true
  | Fin r, Fin s => Req_bool r s
  | _, _ => false
  end.

Definition xltb (x y : xdouble) : bool :=
  match x, y with
  | NaN, _ | _, NaN => false
  | NInf, (PInf | Fin _) => true
  | Fin _, PInf => true
  | Fin r, Fin s => Rlt_bool r s
  | _, _ => false
  end.

(** A function defined on all reals: NaN at the infinities. *)
Definition xperiodic (g : R -> R) (x : xdouble) : xdouble :=
  match x with
  | Fin r => Fin (g r)
  | _ => NaN
  end.

(** [tan] has no value where the cosine vanishes. *)
Definition xtan (x : xdouble) : xdouble :=
  match x with
  | Fin r => if Req_dec_T (Rtrigo_def.cos r) 0 then NaN else Fin (Rtrigo1.tan r)
  | _ => NaN
  end.

(** [asin] and [acos]: NaN outside [-1, 1]. *)
Definition xarc (g : R -> R) (x : xdouble) : xdouble :=
  match x with
  | Fin r => if Rle_dec (-1) r then (if Rle_dec r 1 then Fin (g r) else NaN)
             else NaN
  | _ => NaN
  end.

Definition xatan (x : xdouble) : xdouble :=
  match x with
  | NaN => NaN
  | PInf => Fin (PI / 2)
  | NInf => Fin (- (PI / 2))
  | Fin r => Fin (Ratan.atan r)
  end.

Definition xatan2 (y x : xdouble) : xdouble :=
  match y, x with
  | NaN, _ | _, NaN => NaN
  | PInf, PInf => Fin (PI / 4)
  | PInf, NInf => Fin (3 * PI / 4)
  | NInf, PInf => Fin (- (PI / 4))
  | NInf, NInf => Fin (- (3 * PI / 4))
  | PInf, Fin _ => Fin (PI / 2)
  | NInf, Fin _ => Fin (- (PI / 2))
  | Fin _, PInf => Fin 0
  | Fin r, NInf => if Rlt_dec r 0 then Fin (- PI) else Fin PI
  | Fin r, Fin s => Fin (Ratan2 r s)
  end.

Definition xsqrt (x : xdouble) : xdouble :=
  match x with
  | NaN | NInf => NaN
  | PInf => PInf
  | Fin r => if Rlt_dec r 0 then NaN else Fin (R_sqrt.sqrt r)
  end.

Definition xfabs (x : xdouble) : xdouble :=
  match x with
  | NaN => NaN
  | PInf | NInf => PInf
  | Fin r => Fin (Rbasic_fun.Rabs r)
  end.

#[export] Instance XArith : DoubleOps xdouble := {|
  lit q := Fin (Q2R q);
  π := Fin PI;
  dadd := xadd;
  dsub := xsub;
  dmul := xmul;
  ddiv := xdiv;
  deqb := xeqb;
  dltb := xltb;
  sin := xperiodic Rtrigo_def.sin;
  cos := xperiodic Rtrigo_def.cos;
  tan := xtan;
  asin := xarc Ratan.asin;
  acos := xarc Ratan.acos;
  atan := xatan;
  atan2 := xatan2;
  sqrt := xsqrt;
  fabs := xfabs
|}.

(** ** Exact reals with a trapping division

    The arithmetic of a machine on which a division by zero is an error:
    a [double] is a real number or the trap [None]; the quotient by zero is
    the trap, and every operation on a trap is a trap.  Used to show which
    quotients the code forms. *)

Definition trap1 (g : R -> R) (x : option R) : option R :=
  match x with
  | Some r => Some (g r)
  | None => None
  end.

Definition trap2 (g : R -> R -> R) (x y : option R) : option R :=
  match x, y with
  | Some r, Some s => Some (g r s)
  | _, _ => None
  end.

Definition trap_div (x y : option R) : option R :=
  match x, y with
  | Some r, Some s => if Req_dec_T s 0%R then None else Some (r / s)%R
  | _, _ => None
  end.

Definition trap_cmp (g : R -> R -> bool) (x y : option R) : bool :=
  match x, y with
  | Some r, Some s => g r s
  | _, _ => false
  end.

#[export] Instance TrapArith : DoubleOps (option R) := {|
  lit q := Some (Q2R q);
  π := Some PI;
  dadd := trap2 Rplus;
  dsub := trap2 Rminus;
  dmul := trap2 Rmult;
  ddiv := trap_div;
  deqb := trap_cmp Req_bool;
  dltb := trap_cmp Rlt_bool;
  sin := trap1 Rtrigo_def.sin;
  cos := trap1 Rtrigo_def.cos;
  tan := trap1 Rtrigo1.tan;
  asin := trap1 Ratan.asin;
  acos := trap1 Ratan.acos;
  atan := trap1 Ratan.atan;
  atan2 := trap2 Ratan2;
  sqrt := trap1 R_sqrt.sqrt;
  fabs := trap1 Rbasic_fun.Rabs
|}.

(** The variables of a body execution over the reals, read as values
    of the trapping arithmetic: none of them is the trap. *)
Definition untrapped_vars (vs : loop_vars (D:=R)) : loop_vars (D:=option R) :=
  {| λ := Some (λ vs); λPrev := Some (λPrev vs);
     sinσ := Some (sinσ vs); cosσ := Some (cosσ vs); σ := Some (σ vs);
     sinα := Some (sinα vs); cos2α := Some (cos2α vs);
     cos2σM := Some (cos2σM vs);
     u2 := Some (u2 vs); A := Some (A vs); B := Some (B vs);
     Δσ := Some (Δσ vs) |}.

Definition untrapped (ex : body_exit (D:=R)) : body_exit (D:=option R) :=
  match ex with
  | Returned v => Returned (Some v)
  | Tested vs => Tested (untrapped_vars vs)
  end.

(** ** The formulas of the specification, over the reals *)

(** Haversine as the specification words it:
    [a = sin²(Δφ/2) + cos(φ1)·cos(φ2)·sin²(Δλ/2)], [c = 2·asin(√a)],
    distance [c · 6371.009], times [1/1.609344] for miles. *)
Definition Haversine_formula (lat1 lon1 lat2 lon2 : R) (unit : Units) : R :=
  let φ1 := (lat1 * (PI / 180))%R in
  let φ2 := (lat2 * (PI / 180))%R in
  let Δφ := (φ2 - φ1)%R in
  let Δλ := ((lon2 - lon1) * (PI / 180))%R in
  let a := ((Rtrigo_def.sin (Δφ / 2))² +
            Rtrigo_def.cos φ1 * Rtrigo_def.cos φ2 * (Rtrigo_def.sin (Δλ / 2))²)%R in
  let c := (2 * Ratan.asin (R_sqrt.sqrt a))%R in
  let km := (c * 6371.009)%R in
  match unit with
  | SI => km
  | US => (km * (1 / 1.609344))%R
  end.

(** The cosine of the central angle: the scalar product of the two unit
    vectors. *)
Definition central_cos (φ1 φ2 Δλ : R) : R :=
  (Rtrigo_def.sin φ1 * Rtrigo_def.sin φ2 +
   Rtrigo_def.cos φ1 * Rtrigo_def.cos φ2 * Rtrigo_def.cos Δλ)%R.

(** The loop variables of the call with the two points exchanged: the
    longitude difference and the azimuth change sign. *)
Definition mirror (vs : loop_vars (D:=R)) : loop_vars (D:=R) :=
  {| λ := - λ vs; λPrev := - λPrev vs;
     sinσ := sinσ vs; cosσ := cosσ vs; σ := σ vs; sinα := - sinα vs;
     cos2α := cos2α vs; cos2σM := cos2σM vs;
     u2 := u2 vs; A := A vs; B := B vs; Δσ := Δσ vs |}%R.

Definition mirror_exit (ex : loop_exit (D:=R)) : loop_exit (D:=R) :=
  match ex with
  | LoopReturn v => LoopReturn v
  | LoopBreak iterLimit vs => LoopBreak iterLimit (mirror vs)
  | LoopEnd iterLimit vs => LoopEnd iterLimit (mirror vs)
  end.

(** The longitude difference 179.9° in radians, and the two intervals
    between which [λ] alternates for two points of the equator that far
    apart. *)
Definition near_antipode : R := (PI - PI / 1800)%R.

Definition alternating (l : R) : Prop :=
  (PI / 2 <= l <= near_antipode \/ PI + PI / 1000 <= l <= 3 * PI / 2)%R.



(** A [double] that is NaN or an infinity ([!std::isfinite(x)]). *)
Definition not_finite (x : xdouble) : bool :=
  match x with
  | Fin _ => false
  | _ => true
  end.

(** A [double] that is NaN or a real number, but no infinity. *)
Definition real_or_NaN (x : xdouble) : Prop :=
  x = NaN \/ exists r : R, x = Fin r.

(** For two points of the equator with the longitude difference [Δλ]
    (radians) close below π: the two intervals between which [λ]
    alternates. *)
Definition alternating_about (Δλ l : R) : Prop :=
  (Δλ - 2 * f * PI <= l <= Δλ \/ PI < l <= PI + f * PI)%R.

(** A loop exit over the reals, read in the trapping arithmetic. *)
Definition untrapped_exit (ex : loop_exit (D:=R)) : loop_exit (D:=option R) :=
  match ex with
  | LoopReturn v => LoopReturn (Some v)
  | LoopBreak iterLimit vs => LoopBreak iterLimit (untrapped_vars vs)
  | LoopEnd iterLimit vs => LoopEnd iterLimit (untrapped_vars vs)
  end.

(** The variables of a body execution over the reals, read as values
    of the arithmetic with special values: all of them are finite. *)
Definition finite_vars (vs : loop_vars (D:=R)) : loop_vars (D:=xdouble) :=
  {| λ := Fin (λ vs); λPrev := Fin (λPrev vs);
     sinσ := Fin (sinσ vs); cosσ := Fin (cosσ vs); σ := Fin (σ vs);
     sinα := Fin (sinα vs); cos2α := Fin (cos2α vs);
     cos2σM := Fin (cos2σM vs);
     u2 := Fin (u2 vs); A := Fin (A vs); B := Fin (B vs);
     Δσ := Fin (Δσ vs) |}.

Definition finite_body (ex : body_exit (D:=R)) : body_exit (D:=xdouble) :=
  match ex with
  | Returned v => Returned (Fin v)
  | Tested vs => Tested (finite_vars vs)
  end.

Definition finite_exit (ex : loop_exit (D:=R)) : loop_exit (D:=xdouble) :=
  match ex with
  | LoopReturn v => LoopReturn (Fin v)
  | LoopBreak iterLimit vs => LoopBreak iterLimit (finite_vars vs)
  | LoopEnd iterLimit vs => LoopEnd iterLimit (finite_vars vs)
  end.

(** * Proofs *)

(** ** Control flow of [Vincenty], for every arithmetic *)

Section Control.

Context {D : Type} {ops : DoubleOps D}.
Local Open Scope double_scope.

Variables Δλ sinU1 cosU1 sinU2 cosU2 : D.

Local Abbreviation body := (loop_body Δλ sinU1 cosU1 sinU2 cosU2).
Local Abbreviation loop := (do_while Δλ sinU1 cosU1 sinU2 cosU2).
Local Abbreviation nth := (nth_λ Δλ sinU1 cosU1 sinU2 cosU2).
Local Abbreviation sinσ_at := (sinσ_of sinU1 cosU1 sinU2 cosU2).

Lemma body_Returned (λ0 v : D) :
  body λ0 = Returned v -> (sinσ_at λ0 =? lit 0.0) = true /\ v = lit 0.0.
Proof.
  unfold loop_body, sinσ_of.
  destruct (_ =? _); [ intros [= <-]; split; reflexivity | discriminate ].
Qed.

Lemma body_zero (λ0 : D) :
  (sinσ_at λ0 =? lit 0.0) = true -> body λ0 = Returned (lit 0.0).
Proof.
  unfold loop_body, sinσ_of. intros ->. reflexivity.
Qed.

Lemma body_nonzero (λ0 : D) :
  (sinσ_at λ0 =? lit 0.0) = false ->
  exists vs, body λ0 = Tested vs /\ sinσ vs = sinσ_at λ0 /\ λPrev vs = λ0.
Proof.
  unfold loop_body, sinσ_of. intros ->.
  eexists; split; [ reflexivity | split; reflexivity ].
Qed.

Lemma body_Tested (λ0 : D) (vs : loop_vars) :
  body λ0 = Tested vs ->
  (sinσ_at λ0 =? lit 0.0) = false /\ sinσ vs = sinσ_at λ0 /\ λPrev vs = λ0.
Proof.
  intros H. destruct (sinσ_at λ0 =? lit 0.0) eqn:E.
  - rewrite (body_zero _ E) in H. discriminate.
  - destruct (body_nonzero _ E) as (vs' & H' & ? & ?).
    rewrite H' in H. injection H as <-. auto.
Qed.

(** One unfolding of the loop. *)
Lemma do_while_S (fuel : nat) (iterLimit : Z) (λ0 : D) :
  loop (S fuel) iterLimit λ0 =
  match body λ0 with
  | Returned v => Some (LoopReturn v)
  | Tested vs =>
      if converged vs then Some (LoopBreak iterLimit vs)
      else if (iterLimit - 1 >? 0)%Z
           then loop fuel (iterLimit - 1)%Z (λ vs)
           else Some (LoopEnd (iterLimit - 1)%Z vs)
  end.
Proof. reflexivity. Qed.

(** More fuel does not change the exit of a loop that has ended. *)
Lemma do_while_fuel_mono (n : nat) :
  forall (m : nat) (iterLimit : Z) (λ0 : D) (ex : loop_exit),
    (n <= m)%nat ->
    loop n iterLimit λ0 = Some ex -> loop m iterLimit λ0 = Some ex.
Proof.
  induction n as [|n IH]; intros m iterLimit λ0 ex Hle.
  - discriminate.
  - destruct m as [|m]; [ lia | ]. rewrite !do_while_S.
    destruct (body λ0) as [v|vs]; [ trivial | ].
    destruct (converged vs); [ trivial | ].
    destruct (_ >? _)%Z; [ | trivial ].
    apply IH. lia.
Qed.

(** Two [break] exits are equal when their limits are equal integers. *)
Ltac same_limit :=
  match goal with
  | |- Some (LoopBreak _ ?vs) = Some (LoopBreak _ ?vs) =>
      apply (f_equal (fun i => Some (LoopBreak i vs))); lia
  end.

(** The loop leaves through [break] at the first converged iteration the
    limit allows. *)
Lemma do_while_break (k : nat) :
  forall (iterLimit : Z) (λ0 l : D) (vs : loop_vars),
    (Z.of_nat k < iterLimit)%Z ->
    nth k λ0 = Some l -> body l = Tested vs -> converged vs = true ->
    loop (S k) iterLimit λ0 = Some (LoopBreak (iterLimit - Z.of_nat k) vs).
Proof.
  induction k as [|k IH]; intros iterLimit λ0 l vs Hlim Hk Hb Hc.
  - injection Hk as ->. rewrite do_while_S, Hb, Hc. same_limit.
  - cbn [nth_λ] in Hk. rewrite do_while_S.
    destruct (body λ0) as [v|vs0]; [ discriminate | ].
    destruct (converged vs0); [ discriminate | ].
    rewrite (proj2 (Z.gtb_lt (iterLimit - 1) 0)) by lia.
    rewrite (IH (iterLimit - 1)%Z (λ vs0) l vs) by (trivial; lia).
    same_limit.
Qed.

(** The only value the loop returns from inside the body is the
    literal 0.0. *)
Lemma do_while_return_value (fuel : nat) :
  forall (iterLimit : Z) (λ0 v : D),
    loop fuel iterLimit λ0 = Some (LoopReturn v) -> v = lit 0.0.
Proof.
  induction fuel as [|fuel IH]; intros iterLimit λ0 v.
  - discriminate.
  - rewrite do_while_S. destruct (body λ0) as [v'|vs0] eqn:Hb.
    + intros [= <-]. apply (body_Returned _ _ Hb).
    + destruct (converged vs0); [ discriminate | ].
      destruct (_ >? _)%Z; [ apply IH | discriminate ].
Qed.

(** The variables a loop exit carries were assigned by a body execution
    that reached the convergence test. *)
Lemma do_while_exit_vars (fuel : nat) :
  forall (iterLimit : Z) (λ0 : D) (iterLimit' : Z) (vs : loop_vars),
    loop fuel iterLimit λ0 = Some (LoopBreak iterLimit' vs) \/
    loop fuel iterLimit λ0 = Some (LoopEnd iterLimit' vs) ->
    exists l : D, body l = Tested vs.
Proof.
  induction fuel as [|fuel IH]; intros iterLimit λ0 iterLimit' vs.
  - intros [H|H]; discriminate.
  - rewrite do_while_S. destruct (body λ0) as [v|vs0] eqn:Hb.
    + intros [H|H]; discriminate.
    + destruct (converged vs0).
      * intros [[= _ <-]|H]; [ exists λ0; exact Hb | discriminate ].
      * destruct (_ >? _)%Z.
        -- apply IH.
        -- intros [H|[= _ <-]]; [ discriminate | exists λ0; exact Hb ].
Qed.


(** When [iterLimit] body executions all reach the test and fail it, the
    loop ends with [iterLimit] at zero. *)
Lemma do_while_exhaust (k : nat) :
  forall (λ0 l : D),
    nth (S k) λ0 = Some l ->
    exists vs, loop (S k) (Z.of_nat (S k)) λ0 = Some (LoopEnd 0 vs).
Proof.
  induction k as [|k IH]; intros λ0 l Hk.
  - cbn [nth_λ] in Hk. rewrite do_while_S.
    destruct (body λ0) as [v|vs0]; [ discriminate | ].
    destruct (converged vs0); [ discriminate | ].
    exists vs0. reflexivity.
  - remember (S k) as k'. cbn [nth_λ] in Hk. rewrite do_while_S.
    destruct (body λ0) as [v|vs0]; [ discriminate | ].
    destruct (converged vs0); [ discriminate | ].
    replace (Z.of_nat (S k') - 1)%Z with (Z.of_nat k') by lia.
    rewrite (proj2 (Z.gtb_lt (Z.of_nat k') 0)) by lia.
    subst k'. apply (IH _ _ Hk).
Qed.

(** A loop started with a positive limit ends, after at most that many
    body executions. *)
Lemma do_while_terminates (limit : nat) :
  forall (λ0 : D),
    exists (n : nat) (ex : loop_exit),
      (1 <= n <= S limit)%nat /\
      loop n (Z.of_nat (S limit)) λ0 = Some ex /\
      loop (n - 1) (Z.of_nat (S limit)) λ0 = None /\
      exit_after (Z.of_nat (S limit)) n ex.
Proof.
  induction limit as [|limit IH]; intros λ0.
  - exists 1%nat. rewrite do_while_S. cbn [Nat.sub do_while].
    destruct (body λ0) as [v|vs] eqn:Hb.
    + exists (LoopReturn v). repeat split; try lia.
      apply (body_Returned _ _ Hb).
    + destruct (converged vs) eqn:Hc.
      * exists (LoopBreak 1 vs). repeat split; try lia. exact Hc.
      * exists (LoopEnd 0 vs). repeat split; try lia. exact Hc.
  - destruct (body λ0) as [v|vs] eqn:Hb.
    + exists 1%nat, (LoopReturn v). rewrite do_while_S, Hb.
      repeat split; try lia. apply (body_Returned _ _ Hb).
    + destruct (converged vs) eqn:Hc.
      * exists 1%nat, (LoopBreak (Z.of_nat (S (S limit))) vs).
        rewrite do_while_S, Hb, Hc.
        repeat split; try lia. exact Hc.
      * destruct (IH (λ vs)) as (n & ex & Hn & Hrun & Hmin & Hex).
        exists (S n), ex.
        assert (Hstep : forall m, loop (S m) (Z.of_nat (S (S limit))) λ0
                                  = loop m (Z.of_nat (S limit)) (λ vs)).
        { intros m. rewrite do_while_S, Hb, Hc.
          replace (Z.of_nat (S (S limit)) - 1)%Z with (Z.of_nat (S limit)) by lia.
          rewrite (proj2 (Z.gtb_lt (Z.of_nat (S limit)) 0)) by lia.
          reflexivity. }
        repeat split; try lia.
        -- rewrite Hstep. exact Hrun.
        -- replace (S n - 1)%nat with (S (n - 1)) by lia.
           rewrite Hstep. exact Hmin.
        -- destruct ex as [v|il vs'|il vs']; cbn [exit_after] in *;
             intuition lia.
Qed.

End Control.

(** ** [Vincenty]: what the loop exits mean for the call *)

Section VincentyControl.

Context {D : Type} {ops : DoubleOps D}.
Local Open Scope double_scope.

(** The loop of [Vincenty] is [do_while] on the values of the prelude. *)
Lemma Vincenty_loop_eq (fuel : nat) (lat1 lon1 lat2 lon2 : D) :
  Vincenty_loop fuel lat1 lon1 lat2 lon2 =
  do_while (Δλ_of lon1 lon2)
           (sin (U_of lat1)) (cos (U_of lat1))
           (sin (U_of lat2)) (cos (U_of lat2))
           fuel 100 (Δλ_of lon1 lon2).
Proof. reflexivity. Qed.

Lemma Vincenty_fuel_exit (fuel : nat) (lat1 lon1 lat2 lon2 : D)
    (unit : Units) (ex : loop_exit) :
  Vincenty_loop fuel lat1 lon1 lat2 lon2 = Some ex ->
  Vincenty_fuel fuel lat1 lon1 lat2 lon2 unit
  = Some (try_catch_all (after_loop unit ex) (lit (-1))).
Proof. unfold Vincenty_fuel. intros ->. reflexivity. Qed.

Lemma Vincenty_loop_mono (n m : nat) (lat1 lon1 lat2 lon2 : D)
    (ex : loop_exit) :
  (n <= m)%nat ->
  Vincenty_loop n lat1 lon1 lat2 lon2 = Some ex ->
  Vincenty_loop m lat1 lon1 lat2 lon2 = Some ex.
Proof. rewrite !Vincenty_loop_eq. apply do_while_fuel_mono. Qed.

(** A loop exit found with some fuel is the exit of the call: the call
    returns what follows that exit. *)
Lemma Vincenty_exit (n : nat) (lat1 lon1 lat2 lon2 : D) (unit : Units)
    (ex : loop_exit) :
  Vincenty_loop n lat1 lon1 lat2 lon2 = Some ex ->
  Vincenty lat1 lon1 lat2 lon2 unit
  = try_catch_all (after_loop unit ex) (lit (-1)).
Proof.
  intros Hrun.
  destruct (do_while_terminates (Δλ_of lon1 lon2)
              (sin (U_of lat1)) (cos (U_of lat1))
              (sin (U_of lat2)) (cos (U_of lat2)) 99 (Δλ_of lon1 lon2))
    as (m & ex' & Hm & Hrun' & _ & _).
  rewrite <- Vincenty_loop_eq in Hrun'.
  assert (E : ex' = ex).
  { apply (Vincenty_loop_mono _ (Nat.max n m)) in Hrun; [ | lia ].
    apply (Vincenty_loop_mono _ (Nat.max n m)) in Hrun'; [ | lia ].
    congruence. }
  subst ex'.
  apply (Vincenty_loop_mono _ 100) in Hrun'; [ | lia ].
  unfold Vincenty.
  rewrite (Vincenty_fuel_exit _ _ _ _ _ unit _ Hrun'). reflexivity.
Qed.

Lemma Vincenty_fuel_enough (fuel : nat) (lat1 lon1 lat2 lon2 : D)
    (unit : Units) (d : D) :
  Vincenty_fuel fuel lat1 lon1 lat2 lon2 unit = Some d ->
  Vincenty lat1 lon1 lat2 lon2 unit = d.
Proof.
  unfold Vincenty_fuel.
  destruct (Vincenty_loop fuel lat1 lon1 lat2 lon2) as [ex|] eqn:Hrun;
    [ | discriminate ].
  intros [= <-]. apply (Vincenty_exit _ _ _ _ _ unit _ Hrun).
Qed.

(** With fuel for 100 body executions the model returns the value of the
    call. *)
Lemma Vincenty_returns (fuel : nat) (lat1 lon1 lat2 lon2 : D)
    (unit : Units) :
  (100 <= fuel)%nat ->
  Vincenty_fuel fuel lat1 lon1 lat2 lon2 unit
  = Some (Vincenty lat1 lon1 lat2 lon2 unit).
Proof.
  intros Hfuel.
  destruct (do_while_terminates (Δλ_of lon1 lon2)
              (sin (U_of lat1)) (cos (U_of lat1))
              (sin (U_of lat2)) (cos (U_of lat2)) 99 (Δλ_of lon1 lon2))
    as (m & ex & Hm & Hrun & _ & _).
  rewrite <- Vincenty_loop_eq in Hrun.
  rewrite (Vincenty_exit _ _ _ _ _ unit _ Hrun).
  apply Vincenty_fuel_exit.
  apply Vincenty_loop_mono with (n:=m); [ lia | exact Hrun ].
Qed.

(** C5.  Every call of Vincenty returns: there is a number [n] of body
    executions, at least 1 and at most 100, after which the loop has ended
    (and not before), by the [return] inside the body, by [break] at a
    met convergence test, or with the limit at zero after the 100th
    execution; the call then returns its value, whatever fuel above [n]
    the model is given. *)
Theorem Vincenty_terminates (lat1 lon1 lat2 lon2 : D) (unit : Units) :
  exists (n : nat) (ex : loop_exit),
    (1 <= n <= 100)%nat /\
    Vincenty_loop n lat1 lon1 lat2 lon2 = Some ex /\
    Vincenty_loop (n - 1) lat1 lon1 lat2 lon2 = None /\
    exit_after 100 n ex /\
    Vincenty lat1 lon1 lat2 lon2 unit
    = try_catch_all (after_loop unit ex) (lit (-1)) /\
    forall fuel : nat, (n <= fuel)%nat ->
      Vincenty_fuel fuel lat1 lon1 lat2 lon2 unit
      = Some (Vincenty lat1 lon1 lat2 lon2 unit).
Proof.
  destruct (do_while_terminates (Δλ_of lon1 lon2)
              (sin (U_of lat1)) (cos (U_of lat1))
              (sin (U_of lat2)) (cos (U_of lat2)) 99 (Δλ_of lon1 lon2))
    as (n & ex & Hn & Hrun & Hmin & Hex).
  exists n, ex.
  rewrite <- !Vincenty_loop_eq in *.
  rewrite (Vincenty_exit _ _ _ _ _ unit _ Hrun).
  repeat split; try lia; try assumption.
  intros fuel Hfuel. apply Vincenty_fuel_exit.
  apply Vincenty_loop_mono with (n:=n); [ exact Hfuel | exact Hrun ].
Qed.

(** Let the loop be followed from [λ = Δλ].
    - When 100 body executions all reach the convergence test and fail
      it, the call throws inside the [try] block and returns -1.
    - When the executions before number [k + 1 <= 100] reach the test and
      fail it and execution [k + 1] meets it, the loop is left by [break]
      with the limit still positive, nothing is thrown, and the call
      returns the distance [b·A·(σ − Δσ)/1000] scaled to the unit, computed
      from the variables of that execution. *)
Lemma Vincenty_exhausted_or_converged (lat1 lon1 lat2 lon2 : D) (unit : Units) :
  let Δλ := Δλ_of lon1 lon2 in
  let sinU1 := sin (U_of lat1) in
  let cosU1 := cos (U_of lat1) in
  let sinU2 := sin (U_of lat2) in
  let cosU2 := cos (U_of lat2) in
  (forall l : D,
     nth_λ Δλ sinU1 cosU1 sinU2 cosU2 100 Δλ = Some l ->
     Vincenty lat1 lon1 lat2 lon2 unit = lit (-1) /\
     forall fuel : nat, (100 <= fuel)%nat ->
       Vincenty_fuel fuel lat1 lon1 lat2 lon2 unit = Some (lit (-1)))
  /\
  (forall (k : nat) (l : D) (vs : loop_vars),
     (k < 100)%nat ->
     nth_λ Δλ sinU1 cosU1 sinU2 cosU2 k Δλ = Some l ->
     loop_body Δλ sinU1 cosU1 sinU2 cosU2 l = Tested vs ->
     converged vs = true ->
     after_loop unit (LoopBreak (100 - Z.of_nat k) vs)
     = Return (b * A vs * (σ vs - Δσ vs) / lit 1000.0 * unit_factor unit) /\
     Vincenty lat1 lon1 lat2 lon2 unit
     = b * A vs * (σ vs - Δσ vs) / lit 1000.0 * unit_factor unit /\
     forall fuel : nat, (k < fuel)%nat ->
       Vincenty_loop fuel lat1 lon1 lat2 lon2
       = Some (LoopBreak (100 - Z.of_nat k) vs) /\
       Vincenty_fuel fuel lat1 lon1 lat2 lon2 unit
       = Some (b * A vs * (σ vs - Δσ vs) / lit 1000.0 * unit_factor unit)).
Proof.
  intros Δλ sinU1 cosU1 sinU2 cosU2. split.
  - intros l Hl.
    destruct (do_while_exhaust _ _ _ _ _ 99 _ _ Hl) as (vs & Hrun).
    change (Vincenty_loop 100 lat1 lon1 lat2 lon2 = Some (LoopEnd 0 vs))
      in Hrun.
    split; [ rewrite (Vincenty_exit _ _ _ _ _ unit _ Hrun); reflexivity | ].
    intros fuel Hfuel.
    rewrite Vincenty_fuel_exit with (ex := LoopEnd 0 vs); [ reflexivity | ].
    apply Vincenty_loop_mono with (n:=100%nat); [ exact Hfuel | exact Hrun ].
  - intros k l vs Hk Hl Hb Hc.
    assert (Hrun : forall fuel : nat, (k < fuel)%nat ->
                   Vincenty_loop fuel lat1 lon1 lat2 lon2
                   = Some (LoopBreak (100 - Z.of_nat k) vs)).
    { intros fuel Hfuel. rewrite Vincenty_loop_eq.
      apply do_while_fuel_mono with (n:=S k); [ lia | ].
      apply do_while_break with (l:=l); trivial; lia. }
    assert (Hafter : after_loop unit (LoopBreak (100 - Z.of_nat k) vs)
       = Return (b * A vs * (σ vs - Δσ vs) / lit 1000.0 * unit_factor unit)).
    { cbn [after_loop].
      rewrite (proj2 (Z.eqb_neq (100 - Z.of_nat k) 0)) by lia. reflexivity. }
    split; [ exact Hafter | ].
    split.
    + rewrite (Vincenty_exit _ _ _ _ _ unit _ (Hrun (S k) (Nat.lt_succ_diag_r k))),
        Hafter.
      reflexivity.
    + intros fuel Hfuel. split; [ exact (Hrun fuel Hfuel) | ].
      rewrite (Vincenty_fuel_exit _ _ _ _ _ unit _ (Hrun fuel Hfuel)), Hafter.
      reflexivity.
Qed.


(** A body execution that gets past the zero test of the sine of σ
    reaches the convergence test with every variable assigned, whatever
    cos²α is.  When cos²α compares equal to zero, cos2σM is the literal
    0; otherwise it is the difference with the quotient by cos²α. *)
Lemma cos2σM_guard (Δλ sinU1 cosU1 sinU2 cosU2 l : D) :
  (sinσ_of sinU1 cosU1 sinU2 cosU2 l =? lit 0.0) = false ->
  exists vs : loop_vars,
    loop_body Δλ sinU1 cosU1 sinU2 cosU2 l = Tested vs /\
    ((cos2α vs =? lit 0.0) = true -> cos2σM vs = lit 0.0) /\
    ((cos2α vs =? lit 0.0) = false ->
     cos2σM vs = cosσ vs - (lit 2.0 * sinU1 * sinU2) / cos2α vs).
Proof.
  unfold loop_body, sinσ_of. intros ->.
  eexists. split; [ reflexivity | ]. cbn [cos2α cos2σM cosσ].
  split; intros ->; reflexivity.
Qed.

End VincentyControl.

(** ** The longitudes are read through their difference *)

Section LongitudeDifference.

Context {D : Type} {ops : DoubleOps D}.
Local Open Scope double_scope.

Lemma Haversine_longitude_difference (lat1 lon1 lat2 lon2 lon1' lon2' : D)
    (unit : Units) :
  lon2 - lon1 = lon2' - lon1' ->
  Haversine lat1 lon1 lat2 lon2 unit = Haversine lat1 lon1' lat2 lon2' unit.
Proof. unfold Haversine, Haversine_body. intros ->. reflexivity. Qed.

Lemma SLC_longitude_difference (lat1 lon1 lat2 lon2 lon1' lon2' : D)
    (unit : Units) :
  lon1 - lon2 = lon1' - lon2' ->
  SLC lat1 lon1 lat2 lon2 unit = SLC lat1 lon1' lat2 lon2' unit.
Proof. unfold SLC, SLC_body. intros ->. reflexivity. Qed.

Lemma Vincenty_longitude_difference (fuel : nat)
    (lat1 lon1 lat2 lon2 lon1' lon2' : D) (unit : Units) :
  lon2 - lon1 = lon2' - lon1' ->
  Vincenty_fuel fuel lat1 lon1 lat2 lon2 unit
  = Vincenty_fuel fuel lat1 lon1' lat2 lon2' unit.
Proof. unfold Vincenty_fuel, Vincenty_loop. intros ->. reflexivity. Qed.

End LongitudeDifference.

(** ** Exact real arithmetic: the two spherical formulas *)

(** Replaces the operations of [RealArith] by the functions on [R] and
    the literals by quotients of integers. *)
Ltac real_arith :=
  cbn [lit π dadd dsub dmul ddiv deqb dltb sin cos tan asin acos atan atan2
       sqrt fabs RealArith] in *;
  unfold Q2R in *; cbn [Qnum Qden] in *.

(** Writes every literal [Q2R q] of the goal as an integer or as a
    quotient of two integers. *)
Ltac real_lits :=
  cbn [lit π dadd dsub dmul ddiv deqb dltb sin cos tan asin acos atan atan2
       sqrt fabs RealArith];
  repeat match goal with
  | |- context [Q2R ?q] =>
      let n := eval cbv in (Qnum q) in
      let d := eval cbv in (Z.pos (Qden q)) in
      let r := eval cbv in (Z.rem n d) in
      lazymatch r with
      | 0%Z =>
          let z := eval cbv in (Z.quot n d) in
          replace (Q2R q) with (IZR z)
            by (unfold Q2R; change (Qnum q) with n;
                change (Z.pos (Qden q)) with d; lra)
      | _ =>
          replace (Q2R q) with (IZR n / IZR d)
            by (unfold Q2R; change (Qnum q) with n;
                change (Z.pos (Qden q)) with d; lra)
      end
  end.

Section Spherical.

Local Open Scope R_scope.

Local Abbreviation rsin := Rtrigo_def.sin.
Local Abbreviation rcos := Rtrigo_def.cos.

(** Scalar product of two unit vectors of the plane spanned by a third
    angle: between -1 and 1. *)
Lemma unit_product_bound (s1 c1 s2 c2 cd : R) :
  s1 * s1 + c1 * c1 = 1 -> s2 * s2 + c2 * c2 = 1 -> -1 <= cd <= 1 ->
  -1 <= s1 * s2 + c1 * c2 * cd <= 1.
Proof.
  intros H1 H2 [Hl Hu].
  assert (Hsq : forall x y : R, 0 <= x * x + y * y).
  { intros x y. pose proof (Rle_0_sqr x). pose proof (Rle_0_sqr y).
    unfold Rsqr in *. lra. }
  assert (Hl' : 0 <= 1 + cd) by lra.
  assert (Hu' : 0 <= 1 - cd) by lra.
  pose proof (Rmult_le_pos _ _ Hl' (Hsq (c1 - c2) (s1 - s2))) as Ha.
  pose proof (Rmult_le_pos _ _ Hu' (Hsq (c1 + c2) (s1 - s2))) as Hb.
  pose proof (Rmult_le_pos _ _ Hl' (Hsq (c1 + c2) (s1 + s2))) as Hc.
  pose proof (Rmult_le_pos _ _ Hu' (Hsq (c1 - c2) (s1 + s2))) as Hd.
  split; nra.
Qed.

Lemma central_cos_bound (φ1 φ2 Δλ : R) : -1 <= central_cos φ1 φ2 Δλ <= 1.
Proof.
  unfold central_cos.
  apply unit_product_bound; [ apply sin2_cos2 .. | apply COS_bound ].
Qed.

Lemma sin_half_sqr (x : R) : rsin (x / 2) * rsin (x / 2) = (1 - rcos x) / 2.
Proof.
  replace x with (2 * (x / 2)) at 3 by lra.
  rewrite cos_2a_sin. lra.
Qed.

(** The radicand of Haversine is the haversine of the central angle. *)
Lemma haversine_radicand (φ1 φ2 Δλ : R) :
  rsin ((φ2 - φ1) / 2) * rsin ((φ2 - φ1) / 2) +
  rsin (Δλ / 2) * (rsin (Δλ / 2) * rcos φ1 * rcos φ2)
  = (1 - central_cos φ1 φ2 Δλ) / 2.
Proof.
  unfold central_cos.
  replace (rsin (Δλ / 2) * (rsin (Δλ / 2) * rcos φ1 * rcos φ2))
    with (rsin (Δλ / 2) * rsin (Δλ / 2) * (rcos φ1 * rcos φ2)) by ring.
  rewrite !sin_half_sqr, cos_minus. lra.
Qed.

(** Half-angle form of the arc cosine. *)
Lemma asin_sqrt_half (x : R) :
  -1 <= x <= 1 -> 2 * Ratan.asin (R_sqrt.sqrt ((1 - x) / 2)) = Ratan.acos x.
Proof.
  intros Hx.
  pose proof (acos_bound x) as Hθ.
  rewrite <- (cos_acos x Hx) at 1.
  set (θ := Ratan.acos x) in *.
  rewrite <- sin_half_sqr.
  change (rsin (θ / 2) * rsin (θ / 2)) with (Rsqr (rsin (θ / 2))).
  rewrite sqrt_Rsqr.
  - rewrite asin_sin; lra.
  - apply sin_ge_0; lra.
Qed.

(** The constants of the class, as reals. *)
Lemma toRad_R : toRad (D:=R) = PI / 180.
Proof. unfold toRad. real_arith. f_equal. lra. Qed.

Lemma meanR_R : meanR (D:=R) = 6371.009.
Proof. unfold meanR. real_arith. lra. Qed.

Lemma unit_factor_R (unit : Units) :
  unit_factor (D:=R) unit = match unit with SI => 1 | US => 1 / 1.609344 end.
Proof. destruct unit; unfold unit_factor, mi2km; real_arith; lra. Qed.


Lemma central_cos_even (φ1 φ2 Δλ : R) :
  central_cos φ1 φ2 (- Δλ) = central_cos φ1 φ2 Δλ.
Proof. unfold central_cos. rewrite cos_neg. reflexivity. Qed.

(** Haversine over the reals: the half-angle form of the central angle. *)
Lemma Haversine_R (lat1 lon1 lat2 lon2 : R) (unit : Units) :
  Haversine lat1 lon1 lat2 lon2 unit =
  2 * Ratan.asin (R_sqrt.sqrt
        ((1 - central_cos (lat1 * (PI / 180)) (lat2 * (PI / 180))
                          ((lon2 - lon1) * (PI / 180))) / 2))
  * 6371.009 * unit_factor unit.
Proof.
  unfold Haversine, Haversine_body, try_catch_all.
  rewrite meanR_R, toRad_R. real_arith.
  replace ((lon2 - lon1) / (2 * / 1) * (PI / 180))
    with ((lon2 - lon1) * (PI / 180) / 2) by lra.
  replace ((lat2 * (PI / 180) - lat1 * (PI / 180)) / (2 * / 1))
    with ((lat2 * (PI / 180) - lat1 * (PI / 180)) / 2) by lra.
  rewrite haversine_radicand. lra.
Qed.

(** SLC over the reals. *)
Lemma SLC_R (lat1 lon1 lat2 lon2 : R) (unit : Units) :
  SLC lat1 lon1 lat2 lon2 unit =
  Ratan.acos (central_cos (lat1 * (PI / 180)) (lat2 * (PI / 180))
                          ((lon2 - lon1) * (PI / 180)))
  * 6371.009 * unit_factor unit.
Proof.
  unfold SLC, SLC_body, try_catch_all.
  rewrite meanR_R, toRad_R. real_arith.
  rewrite <- (central_cos_even _ _ ((lon2 - lon1) * (PI / 180))).
  replace (- ((lon2 - lon1) * (PI / 180))) with ((lon1 - lon2) * (PI / 180))
    by lra.
  reflexivity.
Qed.

(** C3.  Over the reals Haversine is the formula of the specification:
    [2·asin(√(sin²(Δφ/2) + cos φ1·cos φ2·sin²(Δλ/2)))·6371.009] kilometers,
    times [1/1.609344] when the unit is US. *)
Theorem Haversine_is_formula (lat1 lon1 lat2 lon2 : R) (unit : Units) :
  Haversine lat1 lon1 lat2 lon2 unit
  = Haversine_formula lat1 lon1 lat2 lon2 unit.
Proof.
  unfold Haversine, Haversine_body, try_catch_all, Haversine_formula.
  rewrite meanR_R, toRad_R, unit_factor_R. real_arith.
  replace ((lon2 - lon1) / (2 * / 1) * (PI / 180))
    with ((lon2 - lon1) * (PI / 180) / 2) by lra.
  replace ((lat2 * (PI / 180) - lat1 * (PI / 180)) / (2 * / 1))
    with ((lat2 * (PI / 180) - lat1 * (PI / 180)) / 2) by lra.
  set (sφ := rsin ((lat2 * (PI / 180) - lat1 * (PI / 180)) / 2)).
  set (sλ := rsin ((lon2 - lon1) * (PI / 180) / 2)).
  replace (sφ * sφ + sλ * (sλ * rcos (lat1 * (PI / 180)) * rcos (lat2 * (PI / 180))))
    with (sφ² + rcos (lat1 * (PI / 180)) * rcos (lat2 * (PI / 180)) * sλ²)
    by (unfold Rsqr; ring).
  destruct unit; lra.
Qed.

(** The half-angle form and the cosine form of the central angle agree. *)
Lemma spherical_agree (lat1 lon1 lat2 lon2 : R) (unit : Units) :
  Haversine lat1 lon1 lat2 lon2 unit = SLC lat1 lon1 lat2 lon2 unit.
Proof.
  rewrite Haversine_R, SLC_R, asin_sqrt_half by apply central_cos_bound.
  reflexivity.
Qed.


End Spherical.

(** ** Exact real arithmetic: Vincenty *)

Section VincentyReal.

Local Open Scope R_scope.

Local Abbreviation rsin := Rtrigo_def.sin.
Local Abbreviation rcos := Rtrigo_def.cos.

Lemma Req_bool_true (x y : R) : x = y -> Req_bool x y = true.
Proof. intros H. unfold Req_bool. destruct (Req_dec_T x y); tauto. Qed.

Lemma Req_bool_false (x y : R) : x <> y -> Req_bool x y = false.
Proof. intros H. unfold Req_bool. destruct (Req_dec_T x y); tauto. Qed.

(** With reduced latitudes on the unit circle, the squares of the sine
    and of the cosine of σ add up to 1. *)
Lemma sinσ_cosσ_unit (s1 c1 s2 c2 sl cl : R) :
  s1 * s1 + c1 * c1 = 1 -> s2 * s2 + c2 * c2 = 1 -> sl * sl + cl * cl = 1 ->
  c2 * sl * (c2 * sl) + (c1 * s2 - s1 * c2 * cl) * (c1 * s2 - s1 * c2 * cl)
  + (s1 * s2 + c1 * c2 * cl) * (s1 * s2 + c1 * c2 * cl) = 1.
Proof. intros H1 H2 Hl. nsatz. Qed.

Lemma Req_bool_false_inv (x y : R) : Req_bool x y = false -> x <> y.
Proof.
  unfold Req_bool. destruct (Req_dec_T x y); [ discriminate | trivial ].
Qed.

(** The radicand of sin σ does not change when the points are exchanged. *)
Lemma sinσ_radicand_sym (s1 c1 s2 c2 sl cl : R) :
  s1 * s1 + c1 * c1 = 1 -> s2 * s2 + c2 * c2 = 1 -> sl * sl + cl * cl = 1 ->
  c1 * - sl * (c1 * - sl) + (c2 * s1 - s2 * c1 * cl) * (c2 * s1 - s2 * c1 * cl)
  = c2 * sl * (c2 * sl) + (c1 * s2 - s1 * c2 * cl) * (c1 * s2 - s1 * c2 * cl).
Proof. intros H1 H2 Hl. nsatz. Qed.

Lemma body_mirror (Δλ s1 c1 s2 c2 l : R) :
  s1 * s1 + c1 * c1 = 1 -> s2 * s2 + c2 * c2 = 1 ->
  loop_body (- Δλ) s2 c2 s1 c1 (- l) =
  match loop_body Δλ s1 c1 s2 c2 l with
  | Returned v => Returned v
  | Tested vs => Tested (mirror vs)
  end.
Proof.
  intros H1 H2.
  pose proof (sin2_cos2 l) as Hl. unfold Rsqr in Hl.
  unfold loop_body.
  cbn [dadd dsub dmul ddiv deqb dltb sin cos atan2 sqrt RealArith].
  rewrite sin_neg, cos_neg.
  rewrite (sinσ_radicand_sym _ _ _ _ _ _ H1 H2 Hl).
  set (ssσ := R_sqrt.sqrt _).
  destruct (Req_bool ssσ (lit 0.0)); [ reflexivity | ].
  unfold mirror. cbn [λ λPrev sinσ cosσ σ sinα cos2α cos2σM u2 A B Δσ].
  set (sα := c1 * c2 * rsin l / ssσ).
  replace (c2 * c1 * - rsin l / ssσ) with (- sα) by (unfold sα, Rdiv; ring).
  replace (- sα * - sα) with (sα * sα) by ring.
  replace (s2 * s1 + c2 * c1 * rcos l) with (s1 * s2 + c1 * c2 * rcos l) by ring.
  replace (lit 2.0 * s2 * s1) with (lit 2.0 * s1 * s2) by ring.
  set (q := lit 1.0 - sα * sα).
  set (cσ := s1 * s2 + c1 * c2 * rcos l).
  set (m := if negb (Req_bool q (lit 0.0)) then _ else _).
  set (C := f / lit 16.0 * q * (lit 4.0 + f * (lit 4.0 - lit 3.0 * q))).
  f_equal. f_equal. ring.
Qed.

Lemma converged_mirror (vs : loop_vars) : converged (mirror vs) = converged vs.
Proof.
  unfold converged, mirror. cbn [λ λPrev dsub dltb fabs RealArith].
  replace (- λ vs - - λPrev vs) with (- (λ vs - λPrev vs)) by ring.
  rewrite Rabs_Ropp. reflexivity.
Qed.

Lemma do_while_mirror (Δλ s1 c1 s2 c2 : R) (fuel : nat) :
  s1 * s1 + c1 * c1 = 1 -> s2 * s2 + c2 * c2 = 1 ->
  forall (iterLimit : Z) (l : R),
    do_while (- Δλ) s2 c2 s1 c1 fuel iterLimit (- l)
    = option_map mirror_exit (do_while Δλ s1 c1 s2 c2 fuel iterLimit l).
Proof.
  intros H1 H2. induction fuel as [|fuel IH]; intros iterLimit l.
  - reflexivity.
  - rewrite !do_while_S, (body_mirror Δλ _ _ _ _ l H1 H2).
    destruct (loop_body Δλ s1 c1 s2 c2 l) as [v|vs]; [ reflexivity | ].
    rewrite converged_mirror.
    destruct (converged vs); [ reflexivity | ].
    destruct (_ >? _)%Z; [ | reflexivity ].
    change (λ (mirror vs)) with (- λ vs). apply IH.
Qed.

Lemma after_loop_mirror (unit : Units) (ex : loop_exit) :
  after_loop unit (mirror_exit ex) = after_loop unit ex.
Proof. destruct ex; reflexivity. Qed.

Lemma Δλ_of_swap (lon1 lon2 : R) : Δλ_of lon2 lon1 = - Δλ_of lon1 lon2.
Proof. unfold Δλ_of. cbn [dsub dmul RealArith]. ring. Qed.

Lemma Δλ_of_shift (lon1 lon2 d : R) :
  Δλ_of (lon1 + d) (lon2 + d) = Δλ_of lon1 lon2.
Proof. unfold Δλ_of. cbn [dsub dmul RealArith]. f_equal. ring. Qed.

(** Vincenty with the two points exchanged. *)
Lemma Vincenty_sym (fuel : nat) (lat1 lon1 lat2 lon2 : R) (unit : Units) :
  Vincenty_fuel fuel lat2 lon2 lat1 lon1 unit
  = Vincenty_fuel fuel lat1 lon1 lat2 lon2 unit.
Proof.
  unfold Vincenty_fuel. rewrite !Vincenty_loop_eq, Δλ_of_swap.
  cbn [sin cos RealArith].
  rewrite do_while_mirror by apply sin2_cos2.
  destruct (do_while _ _ _ _ _ fuel 100 _) as [ex|]; [ | reflexivity ].
  cbn [option_map]. rewrite after_loop_mirror. reflexivity.
Qed.

(** Vincenty with both longitudes shifted. *)
Lemma Vincenty_shift (fuel : nat) (lat1 lon1 lat2 lon2 d : R) (unit : Units) :
  Vincenty_fuel fuel lat1 (lon1 + d) lat2 (lon2 + d) unit
  = Vincenty_fuel fuel lat1 lon1 lat2 lon2 unit.
Proof.
  unfold Vincenty_fuel.
  rewrite !Vincenty_loop_eq, (Δλ_of_shift lon1 lon2 d). reflexivity.
Qed.


Lemma lit_zero_R : lit (D:=R) 0.0 = 0.
Proof. real_arith. lra. Qed.

Lemma lit_one_R : lit (D:=R) 1.0 = 1.
Proof. real_arith. lra. Qed.

Lemma ε_R : ε (D:=R) = / 1000000000000.
Proof.
  unfold ε. cbn [lit RealArith]. unfold Q2R.
  let n := eval cbv in (Qnum 1e-12) in change (Qnum 1e-12) with n.
  let d := eval cbv in (Qden 1e-12) in change (Qden 1e-12) with d.
  lra.
Qed.

(** The equator has reduced latitude 0. *)
Lemma U_of_equator : U_of (D:=R) 0 = 0.
Proof.
  unfold U_of. cbn [dsub dmul atan tan RealArith].
  rewrite Rmult_0_l, tan_0, Rmult_0_r. apply atan_0.
Qed.



End VincentyReal.

(** ** Exact real arithmetic: the distance Vincenty returns is positive *)

Section VincentyPositive.

Local Open Scope R_scope.

Local Abbreviation rsin := Rtrigo_def.sin.
Local Abbreviation rcos := Rtrigo_def.cos.

(** On the upper half of the unit circle the angle is at least its sine. *)
Lemma Ratan2_ge_sine (y x : R) :
  0 < y -> x * x + y * y = 1 -> y <= Ratan2 y x.
Proof.
  intros Hy Hu. unfold Ratan2.
  assert (Hy1 : y <= 1) by nra.
  pose proof PI2_1 as Hpi.
  destruct (Rlt_dec 0 x) as [Hx|Hx].
  - set (t := y / x).
    assert (Ht : 0 < t) by (apply Rdiv_lt_0_compat; assumption).
    assert (Hθ : 0 < Ratan.atan t).
    { rewrite <- atan_0. apply atan_increasing. exact Ht. }
    assert (Hs : rsin (Ratan.atan t) = y).
    { rewrite sin_atan.
      replace (1 + t²) with (Rsqr (/ x)).
      - rewrite sqrt_Rsqr.
        + unfold t. field. lra.
        + left. apply Rinv_0_lt_compat. exact Hx.
      - unfold t, Rsqr. field_simplify; [ | lra | lra ].
        rewrite <- Hu. field. lra. }
    pose proof (sin_lt_x _ Hθ) as Hlt. lra.
  - destruct (Rlt_dec x 0) as [Hx'|Hx'].
    + destruct (Rle_dec 0 y) as [_|Hn]; [ | lra ].
      pose proof (atan_bound (y / x)). lra.
    + destruct (Rlt_dec 0 y) as [_|Hn]; [ lra | lra ].
Qed.

(** The WGS84 constants over the reals. *)
Lemma a_R : a (D:=R) = 6378137.
Proof. unfold a. real_arith. lra. Qed.

Lemma f_R : f (D:=R) = 1000000000 / 298257223563.
Proof. unfold f. real_arith. lra. Qed.

Lemma b_pos : 0 < b (D:=R).
Proof. unfold b. rewrite a_R, f_R. real_arith. lra. Qed.

(** The second eccentricity squared, [(a² − b²)/b²], is about 0.0067. *)
Lemma eccentricity_bounds :
  0 < (a * a - b * b) / (b * b) < 7 / 1000.
Proof.
  assert (Hb : 0 < b (D:=R) * b).
  { pose proof b_pos. nra. }
  split.
  - apply Rdiv_lt_0_compat; [ | exact Hb ].
    unfold b. rewrite a_R, f_R. real_arith. lra.
  - apply (Rmult_lt_reg_r (b * b)); [ exact Hb | ].
    unfold Rdiv at 1. rewrite Rmult_assoc, Rinv_l by lra.
    unfold b. rewrite a_R, f_R. real_arith. lra.
Qed.

(** The variables of a body execution that reaches the convergence
    test, each in terms of the ones assigned before it. *)
Lemma body_Tested_R (Δλ s1 c1 s2 c2 l : R) (vs : loop_vars) :
  loop_body Δλ s1 c1 s2 c2 l = Tested vs ->
  sinσ vs = R_sqrt.sqrt (c2 * rsin l * (c2 * rsin l) +
              (c1 * s2 - s1 * c2 * rcos l) * (c1 * s2 - s1 * c2 * rcos l)) /\
  sinσ vs <> 0 /\
  cosσ vs = s1 * s2 + c1 * c2 * rcos l /\
  σ vs = Ratan2 (sinσ vs) (cosσ vs) /\
  sinα vs = c1 * c2 * rsin l / sinσ vs /\
  cos2α vs = 1 - sinα vs * sinα vs /\
  cos2σM vs = (if Req_bool (cos2α vs) 0 then 0
               else cosσ vs - 2 * s1 * s2 / cos2α vs) /\
  u2 vs = cos2α vs * (a * a - b * b) / (b * b) /\
  A vs = 1 + u2 vs / 16384 *
             (4096 + u2 vs * (-768 + u2 vs * (320 - 175 * u2 vs))) /\
  B vs = u2 vs / 1024 *
         (256 + u2 vs * (-128 + u2 vs * (74 - 47 * u2 vs))) /\
  Δσ vs = B vs * sinσ vs *
          (cos2σM vs + B vs / 4 *
             (cosσ vs * (-1 + 2 * (cos2σM vs * cos2σM vs)) -
              B vs / 6 * cos2σM vs * (-3 + 4 * sinσ vs * sinσ vs) *
              (-3 + 4 * (cos2σM vs * cos2σM vs)))) /\
  λPrev vs = l /\
  λ vs = (let C := f / 16 * cos2α vs * (4 + f * (4 - 3 * cos2α vs)) in
          Δλ + (1 - C) * f * sinα vs *
               (σ vs + C * sinσ vs *
                  (cos2σM vs +
                   C * cosσ vs * (-1 + 2 * (cos2σM vs * cos2σM vs))))).
Proof.
  unfold loop_body.
  cbn [dadd dsub dmul ddiv deqb dltb sin cos atan2 sqrt RealArith].
  set (sσ := R_sqrt.sqrt _).
  rewrite lit_zero_R.
  unfold Req_bool at 1. destruct (Req_dec_T sσ 0) as [|Hσ]; [ discriminate | ].
  intros [= <-].
  cbn [λ λPrev sinσ cosσ σ sinα cos2α cos2σM u2 A B Δσ]. cbv zeta.
  unfold b, a, f. real_lits.
  set (sα := c1 * c2 * rsin l / sσ).
  set (q := 1 - sα * sα).
  destruct (Req_bool q 0); cbn [negb];
    repeat split; try reflexivity; try assumption.
Qed.

(** A product of two bounded numbers is bounded by the product of the
    bounds. *)
Lemma product_bound (x y bx by' : R) :
  - bx <= x <= bx -> - by' <= y <= by' -> - (bx * by') <= x * y <= bx * by'.
Proof.
  intros [Hx1 Hx2] [Hy1 Hy2].
  assert (Ha : 0 <= bx - x) by lra. assert (Hb : 0 <= bx + x) by lra.
  assert (Hc : 0 <= by' - y) by lra. assert (Hd : 0 <= by' + y) by lra.
  pose proof (Rmult_le_pos _ _ Ha Hc). pose proof (Rmult_le_pos _ _ Hb Hd).
  pose proof (Rmult_le_pos _ _ Ha Hd). pose proof (Rmult_le_pos _ _ Hb Hc).
  split; lra.
Qed.

(** The correction Δσ is at most half of sin σ in absolute value. *)
Lemma Δσ_small (sσ cσ m B : R) :
  0 < sσ <= 1 -> -1 <= cσ <= 1 -> 0 <= B <= 1 / 100 ->
  - (1 / 100) <= B * m <= 1 / 100 ->
  - (sσ / 2) <=
  B * sσ * (m + B / 4 * (cσ * (-1 + 2 * (m * m)) -
                         B / 6 * m * (-3 + 4 * sσ * sσ) *
                         (-3 + 4 * (m * m))))
  <= sσ / 2.
Proof.
  intros Hs Hc HB Hw.
  set (w := B * m) in *.
  replace (B * sσ * (m + B / 4 * (cσ * (-1 + 2 * (m * m)) -
             B / 6 * m * (-3 + 4 * sσ * sσ) * (-3 + 4 * (m * m)))))
    with (sσ * (w + / 4 * (cσ * (2 * (w * w) - B * B)) -
                / 24 * (w * ((-3 + 4 * sσ * sσ) *
                             (4 * (w * w) - 3 * (B * B))))))
    by (unfold w; field).
  clearbody w.
  set (X := 2 * (w * w) - B * B).
  set (Y := -3 + 4 * sσ * sσ).
  set (Z := 4 * (w * w) - 3 * (B * B)).
  assert (Hww : 0 <= w * w <= 1 / 10000).
  { pose proof (product_bound w w (1 / 100) (1 / 100) Hw Hw).
    pose proof (Rle_0_sqr w) as H0. unfold Rsqr in H0. lra. }
  assert (HBB : 0 <= B * B <= 1 / 10000).
  { assert (HB' : - (1 / 100) <= B <= 1 / 100) by lra.
    pose proof (product_bound B B (1 / 100) (1 / 100) HB' HB').
    pose proof (Rle_0_sqr B) as H0. unfold Rsqr in H0. lra. }
  assert (HX : - (1 / 1000) <= X <= 1 / 1000) by (unfold X; lra).
  assert (Hss : 0 <= sσ * sσ <= 1).
  { assert (Hs' : - 1 <= sσ <= 1) by lra.
    pose proof (product_bound sσ sσ 1 1 Hs' Hs').
    pose proof (Rle_0_sqr sσ) as H0. unfold Rsqr in H0. lra. }
  assert (HY : - 3 <= Y <= 3) by (unfold Y; lra).
  assert (HZ : - (1 / 1000) <= Z <= 1 / 1000) by (unfold Z; lra).
  pose proof (product_bound cσ X 1 (1 / 1000) Hc HX) as HcX.
  pose proof (product_bound Y Z 3 (1 / 1000) HY HZ) as HYZ.
  pose proof (product_bound w (Y * Z) (1 / 100) (3 * (1 / 1000)) Hw HYZ)
    as HwYZ.
  set (G := w + / 4 * (cσ * X) - / 24 * (w * (Y * Z))).
  assert (HG : - (1 / 2) <= G <= 1 / 2) by (unfold G; lra).
  clearbody G.
  assert (Hs' : - sσ <= sσ <= sσ) by lra.
  pose proof (product_bound sσ G sσ (1 / 2) Hs' HG). lra.
Qed.

(** The two series of Vincenty for [u²] between 0 and 0.007:
    [A] is at least 1 and [B] lies between 0 and [u²/4]. *)
Lemma series_bounds (u : R) :
  0 <= u <= 7 / 1000 ->
  1 <= 1 + u / 16384 * (4096 + u * (-768 + u * (320 - 175 * u))) /\
  0 <= 256 + u * (-128 + u * (74 - 47 * u)) <= 256.
Proof.
  intros Hu.
  assert (H3 : 0 <= u * (320 - 175 * u) <= 3) by nra.
  assert (H2 : -6 <= u * (-768 + u * (320 - 175 * u)) <= 0) by nra.
  assert (G3 : 0 <= u * (74 - 47 * u) <= 1) by nra.
  assert (G2 : -1 <= u * (-128 + u * (74 - 47 * u)) <= 0) by nra.
  split; [ | lra ].
  assert (0 <= u / 16384 * (4096 + u * (-768 + u * (320 - 175 * u)))).
  { apply Rmult_le_pos; lra. }
  lra.
Qed.

Lemma unit_component (s c : R) : s * s + c * c = 1 -> -1 <= s <= 1.
Proof. intros H. split; nra. Qed.

(** A body execution that reaches the convergence test leaves [A >= 1]
    and [σ − Δσ > 0], when the reduced latitudes are on the unit circle. *)
Lemma body_distance_positive (Δλ s1 c1 s2 c2 l : R) (vs : loop_vars) :
  s1 * s1 + c1 * c1 = 1 -> s2 * s2 + c2 * c2 = 1 ->
  loop_body Δλ s1 c1 s2 c2 l = Tested vs ->
  1 <= A vs /\ 0 < σ vs - Δσ vs.
Proof.
  intros H1 H2 Hb.
  destruct (body_Tested_R _ _ _ _ _ _ _ Hb)
    as (Hsσ & Hσ0 & Hcσ & Hσ & Hsα & Hq & Hm & Hu & HA & HB & HΔ & _).
  pose proof (sin2_cos2 l) as Hl. unfold Rsqr in Hl.
  set (sl := rsin l) in *. set (cl := rcos l) in *. clearbody sl cl.
  pose proof (sinσ_cosσ_unit _ _ _ _ _ _ H1 H2 Hl) as Hunit.
  rewrite <- Hcσ in Hunit.
  set (rad := c2 * sl * (c2 * sl) +
              (c1 * s2 - s1 * c2 * cl) * (c1 * s2 - s1 * c2 * cl)) in *.
  assert (Hrad : 0 <= rad).
  { unfold rad. pose proof (Rle_0_sqr (c2 * sl)) as Ha.
    pose proof (Rle_0_sqr (c1 * s2 - s1 * c2 * cl)) as Hb'.
    unfold Rsqr in *. lra. }
  assert (Hsq : sinσ vs * sinσ vs = rad).
  { rewrite Hsσ. apply sqrt_sqrt. exact Hrad. }
  assert (Hpos : 0 < sinσ vs).
  { pose proof (sqrt_pos rad). rewrite <- Hsσ in *. lra. }
  set (sσ := sinσ vs) in *. set (cσ := cosσ vs) in *.
  assert (Hge : sσ <= σ vs).
  { rewrite Hσ. apply Ratan2_ge_sine; [ exact Hpos | lra ]. }
  assert (Hsσ1 : sσ <= 1) by nra.
  assert (Hcσ1 : -1 <= cσ <= 1) by (split; nra).
  (* the azimuth *)
  set (sα := sinα vs) in *.
  assert (Hsα' : sα * sσ = c1 * c2 * sl).
  { rewrite Hsα. field. lra. }
  assert (Hc1 : c1 * c1 <= 1) by nra.
  assert (Hsα2 : sα * sα <= 1).
  { assert (Hle : (c1 * c2 * sl) * (c1 * c2 * sl) <= sσ * sσ).
    { rewrite Hsq. unfold rad.
      pose proof (Rle_0_sqr (c1 * s2 - s1 * c2 * cl)) as Ha.
      pose proof (Rle_0_sqr (c2 * sl)) as Hb'. unfold Rsqr in *.
      assert (0 <= (1 - c1 * c1) * (c2 * sl * (c2 * sl)))
        by (apply Rmult_le_pos; lra).
      lra. }
    rewrite <- Hsα' in Hle.
    assert (Hss : 0 < sσ * sσ) by nra.
    assert (Hmul : (sα * sα - 1) * (sσ * sσ) <= 0) by lra.
    destruct (Rle_dec (sα * sα) 1) as [|Hn]; [ assumption | ].
    exfalso. assert (0 < (sα * sα - 1) * (sσ * sσ)).
    { apply Rmult_lt_0_compat; lra. }
    lra. }
  set (q := cos2α vs) in *.
  assert (Hq01 : 0 <= q <= 1).
  { pose proof (Rle_0_sqr sα) as Ha. unfold Rsqr in Ha. lra. }
  pose proof eccentricity_bounds as [HE0 HE1].
  set (E := (a * a - b * b) / (b * b)) in *.
  set (u := u2 vs) in *.
  assert (HuE : u = q * E) by (rewrite Hu; unfold E, Rdiv; ring).
  assert (Hu01 : 0 <= u <= 7 / 1000).
  { rewrite HuE. split; [ apply Rmult_le_pos; lra | ].
    assert (q * E <= 1 * E) by (apply Rmult_le_compat_r; lra). lra. }
  destruct (series_bounds u Hu01) as [HA1 Hg].
  split; [ rewrite HA; exact HA1 | ].
  set (g := 256 + u * (-128 + u * (74 - 47 * u))) in *.
  set (k := E / 1024 * g).
  assert (Hk : 0 <= k <= 7 / 4000).
  { unfold k. split.
    - apply Rmult_le_pos; lra.
    - assert (E / 1024 * g <= E / 1024 * 256)
        by (apply Rmult_le_compat_l; lra).
      lra. }
  assert (HBk : B vs = q * k).
  { rewrite HB. fold u g. rewrite HuE. unfold k. field. }
  assert (HB01 : 0 <= B vs <= 7 / 4000).
  { rewrite HBk. split; [ apply Rmult_le_pos; lra | ].
    assert (q * k <= 1 * k) by (apply Rmult_le_compat_r; lra). lra. }
  rewrite HΔ. fold sσ cσ.
  unfold Req_bool in Hm. destruct (Req_dec_T q 0) as [Hq0|Hq0].
  - (* cos²α = 0: no correction *)
    assert (HB0 : B vs = 0) by (rewrite HBk, Hq0; ring).
    rewrite HB0. lra.
  - pose proof (unit_component _ _ H1) as Hs1.
    pose proof (unit_component _ _ H2) as Hs2.
    pose proof (product_bound s1 s2 1 1 Hs1 Hs2) as Hs12.
    assert (Hw : B vs * cos2σM vs = B vs * cσ - 2 * (s1 * s2) * k).
    { rewrite Hm, HBk. field. exact Hq0. }
    assert (HBc : - (7 / 4000) <= B vs * cσ <= 7 / 4000).
    { assert (HB' : - (7 / 4000) <= B vs <= 7 / 4000) by lra.
      pose proof (product_bound (B vs) cσ (7 / 4000) 1 HB' Hcσ1). lra. }
    assert (Hsk : - (7 / 4000) <= (s1 * s2) * k <= 7 / 4000).
    { assert (Hk' : - (7 / 4000) <= k <= 7 / 4000) by lra.
      pose proof (product_bound (s1 * s2) k (1 * 1) (7 / 4000) Hs12 Hk').
      lra. }
    assert (Hw' : - (1 / 100) <= B vs * cos2σM vs <= 1 / 100)
      by (rewrite Hw; lra).
    assert (HB'' : 0 <= B vs <= 1 / 100) by lra.
    pose proof (Δσ_small sσ cσ (cos2σM vs) (B vs)
                  (conj Hpos Hsσ1) Hcσ1 HB'' Hw') as HΔs.
    lra.
Qed.

End VincentyPositive.

(** ** Exact real arithmetic: the range of the results *)

Section ResultRange.

Local Open Scope R_scope.

Lemma unit_factor_pos (unit : Units) : 0 < unit_factor (D:=R) unit.
Proof. rewrite unit_factor_R. destruct unit; lra. Qed.

Lemma sentinel_R : lit (D:=R) (-1) = -1.
Proof. real_arith. lra. Qed.

(** The distance computed after the loop, from the variables of a body
    execution that reached the convergence test, is positive. *)
Lemma distance_positive (Δλ s1 c1 s2 c2 l : R) (vs : loop_vars)
    (unit : Units) :
  s1 * s1 + c1 * c1 = 1 -> s2 * s2 + c2 * c2 = 1 ->
  loop_body Δλ s1 c1 s2 c2 l = Tested vs ->
  0 < (b * A vs * (σ vs - Δσ vs) / lit 1000.0 * unit_factor unit)%D.
Proof.
  intros H1 H2 Hb.
  destruct (body_distance_positive _ _ _ _ _ _ _ H1 H2 Hb) as [HA Hσ].
  pose proof b_pos as Hbp. pose proof (unit_factor_pos unit) as Hf.
  cbn [dmul ddiv dsub RealArith].
  replace (lit (D:=R) 1000.0) with 1000 by (real_arith; lra).
  apply Rmult_lt_0_compat; [ | exact Hf ].
  apply Rdiv_lt_0_compat; [ | lra ].
  apply Rmult_lt_0_compat; [ | exact Hσ ].
  apply Rmult_lt_0_compat; lra.
Qed.

(** What follows the loop, over the reals: the sentinel when the limit is
    used up, a positive distance otherwise. *)
Lemma after_loop_R (Δλ s1 c1 s2 c2 l : R) (vs : loop_vars) (unit : Units)
    (iterLimit : Z) (ex : loop_exit) :
  s1 * s1 + c1 * c1 = 1 -> s2 * s2 + c2 * c2 = 1 ->
  loop_body Δλ s1 c1 s2 c2 l = Tested vs ->
  ex = LoopBreak iterLimit vs \/ ex = LoopEnd iterLimit vs ->
  let d := try_catch_all (after_loop unit ex) (lit (-1)) in
  d = -1 \/ 0 < d.
Proof.
  intros H1 H2 Hb Hex d.
  assert (Hd : d = if (iterLimit =? 0)%Z then lit (-1)
                   else (b * A vs * (σ vs - Δσ vs) / lit 1000.0
                         * unit_factor unit)%D).
  { unfold d. destruct Hex as [-> | ->]; cbn [after_loop];
      destruct (iterLimit =? 0)%Z; reflexivity. }
  rewrite Hd. destruct (iterLimit =? 0)%Z.
  - left. apply sentinel_R.
  - right. apply (distance_positive _ _ _ _ _ _ _ unit H1 H2 Hb).
Qed.

(** Over the reals a call of Vincenty returns 0, the sentinel -1 or a
    positive distance. *)
Lemma Vincenty_result_R (fuel : nat) (lat1 lon1 lat2 lon2 : R)
    (unit : Units) (d : R) :
  Vincenty_fuel fuel lat1 lon1 lat2 lon2 unit = Some d ->
  d = 0 \/ d = -1 \/ 0 < d.
Proof.
  unfold Vincenty_fuel. rewrite Vincenty_loop_eq.
  destruct (do_while _ _ _ _ _ fuel 100 _) as [ex|] eqn:Hrun;
    [ | discriminate ].
  intros [= <-].
  destruct ex as [v|il vs|il vs].
  - left. rewrite (do_while_return_value _ _ _ _ _ _ _ _ _ Hrun).
    cbn [after_loop try_catch_all]. apply lit_zero_R.
  - right.
    destruct (do_while_exit_vars _ _ _ _ _ _ _ _ _ _ (or_introl Hrun))
      as [l Hb].
    apply (after_loop_R _ _ _ _ _ _ _ unit il _
             (sin2_cos2 _) (sin2_cos2 _) Hb (or_introl eq_refl)).
  - right.
    destruct (do_while_exit_vars _ _ _ _ _ _ _ _ _ _ (or_intror Hrun))
      as [l Hb].
    apply (after_loop_R _ _ _ _ _ _ _ unit il _
             (sin2_cos2 _) (sin2_cos2 _) Hb (or_intror eq_refl)).
Qed.

Lemma Vincenty_range (lat1 lon1 lat2 lon2 : R) (unit : Units) :
  Vincenty lat1 lon1 lat2 lon2 unit = 0 \/
  Vincenty lat1 lon1 lat2 lon2 unit = -1 \/
  0 < Vincenty lat1 lon1 lat2 lon2 unit.
Proof.
  apply (Vincenty_result_R 100 lat1 lon1 lat2 lon2 unit).
  apply Vincenty_returns. apply le_n.
Qed.

(** Over the reals Haversine and SLC return a non-negative number. *)
Lemma SLC_nonneg (lat1 lon1 lat2 lon2 : R) (unit : Units) :
  0 <= SLC lat1 lon1 lat2 lon2 unit.
Proof.
  rewrite SLC_R.
  pose proof (acos_bound (central_cos (lat1 * (PI / 180)) (lat2 * (PI / 180))
                            ((lon2 - lon1) * (PI / 180)))) as [H _].
  pose proof (unit_factor_pos unit).
  apply Rmult_le_pos; [ apply Rmult_le_pos | ]; lra.
Qed.

Lemma Haversine_nonneg (lat1 lon1 lat2 lon2 : R) (unit : Units) :
  0 <= Haversine lat1 lon1 lat2 lon2 unit.
Proof. rewrite spherical_agree. apply SLC_nonneg. Qed.

(** C2.  For every arithmetic, with the loop followed from [λ = Δλ]:
    - when 100 body executions all reach the convergence test and fail
      it, the call throws inside the [try] block and returns -1;
    - when the executions before number [k + 1 <= 100] reach the test and
      fail it and execution [k + 1] meets it, the loop is left by [break]
      with the limit still positive, nothing is thrown, and the call
      returns the distance [b·A·(σ − Δσ)/1000] scaled to the unit, computed
      from the variables of that execution.
    Over the reals that distance is positive, so it is not the sentinel. *)
Theorem Vincenty_converged_or_sentinel :
  (forall (D : Type) (ops : DoubleOps D) (lat1 lon1 lat2 lon2 : D)
          (unit : Units),
     let Δλ := Δλ_of lon1 lon2 in
     let sinU1 := sin (U_of lat1) in
     let cosU1 := cos (U_of lat1) in
     let sinU2 := sin (U_of lat2) in
     let cosU2 := cos (U_of lat2) in
     (forall l : D,
        nth_λ Δλ sinU1 cosU1 sinU2 cosU2 100 Δλ = Some l ->
        Vincenty lat1 lon1 lat2 lon2 unit = lit (-1) /\
        forall fuel : nat, (100 <= fuel)%nat ->
          Vincenty_fuel fuel lat1 lon1 lat2 lon2 unit = Some (lit (-1)))
     /\
     (forall (k : nat) (l : D) (vs : loop_vars),
        (k < 100)%nat ->
        nth_λ Δλ sinU1 cosU1 sinU2 cosU2 k Δλ = Some l ->
        loop_body Δλ sinU1 cosU1 sinU2 cosU2 l = Tested vs ->
        converged vs = true ->
        after_loop unit (LoopBreak (100 - Z.of_nat k) vs)
        = Return (b * A vs * (σ vs - Δσ vs) / lit 1000.0
                  * unit_factor unit)%D /\
        Vincenty lat1 lon1 lat2 lon2 unit
        = (b * A vs * (σ vs - Δσ vs) / lit 1000.0 * unit_factor unit)%D /\
        forall fuel : nat, (k < fuel)%nat ->
          Vincenty_loop fuel lat1 lon1 lat2 lon2
          = Some (LoopBreak (100 - Z.of_nat k) vs) /\
          Vincenty_fuel fuel lat1 lon1 lat2 lon2 unit
          = Some (b * A vs * (σ vs - Δσ vs) / lit 1000.0
                  * unit_factor unit)%D))
  /\
  (forall (lat1 lon1 lat2 lon2 l : R) (unit : Units) (vs : loop_vars),
     loop_body (Δλ_of lon1 lon2) (sin (U_of lat1)) (cos (U_of lat1))
               (sin (U_of lat2)) (cos (U_of lat2)) l = Tested vs ->
     0 < (b * A vs * (σ vs - Δσ vs) / lit 1000.0 * unit_factor unit)%D /\
     (b * A vs * (σ vs - Δσ vs) / lit 1000.0 * unit_factor unit)%D
     <> lit (-1)).
Proof.
  split.
  - intros D ops lat1 lon1 lat2 lon2 unit.
    apply Vincenty_exhausted_or_converged.
  - intros lat1 lon1 lat2 lon2 l unit vs Hb.
    pose proof (distance_positive _ _ _ _ _ _ _ unit
                  (sin2_cos2 _) (sin2_cos2 _) Hb) as Hpos.
    split; [ exact Hpos | ].
    rewrite sentinel_R. lra.
Qed.

End ResultRange.

(** ** Exact real arithmetic: no convergence near the antipode *)

Section NearAntipodal.

Local Open Scope R_scope.

Local Abbreviation rsin := Rtrigo_def.sin.
Local Abbreviation rcos := Rtrigo_def.cos.

(** [atan2] recovers an angle of the upper half plane from its sine and
    cosine. *)
Lemma Ratan2_sin_cos (t : R) : 0 < t < PI -> Ratan2 (rsin t) (rcos t) = t.
Proof.
  intros [H0 Hpi]. unfold Ratan2.
  assert (Hs : 0 < rsin t) by (apply sin_gt_0; assumption).
  destruct (Rlt_dec 0 (rcos t)) as [Hc|Hc].
  - assert (Ht : t < PI / 2).
    { destruct (Rlt_dec t (PI / 2)) as [|Hn]; [ assumption | ].
      exfalso. assert (rcos t <= 0) by (apply cos_le_0; lra). lra. }
    change (rsin t / rcos t) with (Rtrigo1.tan t).
    apply atan_tan. lra.
  - destruct (Rlt_dec (rcos t) 0) as [Hc'|Hc'].
    + destruct (Rle_dec 0 (rsin t)) as [_|Hn]; [ | lra ].
      assert (Ht : PI / 2 < t).
      { destruct (Rlt_dec (PI / 2) t) as [|Hn]; [ assumption | ].
        exfalso. assert (0 <= rcos t) by (apply cos_ge_0; lra). lra. }
      replace (rsin t / rcos t) with (Rtrigo1.tan (t - PI)).
      * rewrite atan_tan by lra. ring.
      * unfold Rtrigo1.tan.
        rewrite sin_minus, cos_minus, sin_PI, cos_PI. field. lra.
    + assert (E : rcos t = 0) by lra.
      destruct (Rlt_dec 0 (rsin t)) as [_|Hn]; [ | lra ].
      destruct (cos_eq_0_2PI_0 t) as [Ht|Ht]; lra.
Qed.

(** On the equator ([U1 = U2 = 0]) a body execution with [sin λ ≠ 0]
    finds the azimuth equatorial and cos²α = 0; the new [λ] is
    [Δλ ± f·σ]. *)
Lemma equator_step (Δλ l : R) :
  rsin l <> 0 ->
  exists vs : loop_vars,
    loop_body Δλ 0 1 0 1 l = Tested vs /\
    λPrev vs = l /\
    λ vs = Δλ + f * (rsin l / Rabs (rsin l))
                * Ratan2 (Rabs (rsin l)) (rcos l).
Proof.
  intros Hsl.
  assert (Hrad : 1 * rsin l * (1 * rsin l) +
                 (1 * 0 - 0 * 1 * rcos l) * (1 * 0 - 0 * 1 * rcos l)
                 = Rsqr (rsin l)) by (unfold Rsqr; ring).
  assert (Habs : Rabs (rsin l) <> 0) by (apply Rabs_no_R0; exact Hsl).
  destruct (body_nonzero Δλ 0 1 0 1 l) as (vs & Hb & _).
  { unfold sinσ_of. cbn [dadd dsub dmul deqb sin cos sqrt RealArith].
    rewrite Hrad, sqrt_Rsqr_abs, lit_zero_R.
    apply Req_bool_false. exact Habs. }
  exists vs. split; [ exact Hb | ].
  destruct (body_Tested_R _ _ _ _ _ _ _ Hb)
    as (Hsσ & _ & Hcσ & Hσ & Hsα & Hq & Hm & _ & _ & _ & _ & Hprev & Hλ).
  split; [ exact Hprev | ].
  rewrite Hrad, sqrt_Rsqr_abs in Hsσ.
  assert (Hcσ' : cosσ vs = rcos l) by (rewrite Hcσ; ring).
  assert (Hsα' : sinα vs = rsin l / Rabs (rsin l)).
  { rewrite Hsα, Hsσ. field. exact Habs. }
  assert (Hq0 : cos2α vs = 0).
  { rewrite Hq, Hsα'.
    assert (E : Rabs (rsin l) * Rabs (rsin l) = rsin l * rsin l).
    { rewrite <- Rabs_mult. apply Rabs_pos_eq.
      pose proof (Rle_0_sqr (rsin l)) as H. exact H. }
    replace (rsin l / Rabs (rsin l) * (rsin l / Rabs (rsin l)))
      with ((rsin l * rsin l) / (Rabs (rsin l) * Rabs (rsin l)))
      by (field; exact Habs).
    rewrite E. field. exact Hsl. }
  rewrite Hq0 in Hm. rewrite (Req_bool_true 0 0 eq_refl) in Hm.
  rewrite Hλ, Hq0, Hm, Hσ, Hsσ, Hcσ', Hsα'. cbv zeta. ring.
Qed.

(** East of the antipode: [0 < λ < π]. *)
Lemma step_east (Δλ l : R) :
  0 < l < PI ->
  exists vs : loop_vars,
    loop_body Δλ 0 1 0 1 l = Tested vs /\
    λPrev vs = l /\ λ vs = Δλ + f * l.
Proof.
  intros Hl.
  assert (Hs : 0 < rsin l) by (apply sin_gt_0; lra).
  destruct (equator_step Δλ l) as (vs & Hb & Hprev & Hλ); [ lra | ].
  exists vs. split; [ exact Hb | ]. split; [ exact Hprev | ].
  rewrite Hλ, (Rabs_pos_eq (rsin l)) by lra.
  rewrite Ratan2_sin_cos by exact Hl. field. lra.
Qed.

(** West of the antipode: [π < λ < 2π]. *)
Lemma step_west (Δλ l : R) :
  PI < l < 2 * PI ->
  exists vs : loop_vars,
    loop_body Δλ 0 1 0 1 l = Tested vs /\
    λPrev vs = l /\ λ vs = Δλ - f * (2 * PI - l).
Proof.
  intros Hl.
  assert (Hs : rsin l < 0) by (apply sin_lt_0; lra).
  destruct (equator_step Δλ l) as (vs & Hb & Hprev & Hλ); [ lra | ].
  exists vs. split; [ exact Hb | ]. split; [ exact Hprev | ].
  rewrite Hλ, (Rabs_left (rsin l)) by lra.
  replace (- rsin l) with (rsin (2 * PI - l))
    by (rewrite sin_minus, sin_2PI, cos_2PI; ring).
  replace (rcos l) with (rcos (2 * PI - l))
    by (rewrite cos_minus, sin_2PI, cos_2PI; ring).
  rewrite Ratan2_sin_cos by lra.
  rewrite sin_minus, sin_2PI, cos_2PI.
  field. lra.
Qed.

(** A failed convergence test, from a lower bound on the change of [λ]. *)
Lemma not_converged (vs : loop_vars) :
  / 1000000000000 <= Rabs (λ vs - λPrev vs) -> converged vs = false.
Proof.
  intros H. unfold converged. rewrite ε_R.
  cbn [dsub dltb fabs RealArith]. unfold Rlt_bool.
  destruct (Rlt_dec _ _); [ lra | reflexivity ].
Qed.

(** Started in one of the two intervals, a body execution fails the
    convergence test and leaves [λ] in the other interval. *)
Lemma alternating_step (l : R) :
  alternating l ->
  exists vs : loop_vars,
    loop_body near_antipode 0 1 0 1 l = Tested vs /\
    converged vs = false /\ alternating (λ vs).
Proof.
  pose proof PI2_3_2 as Hpi3. pose proof PI_4 as Hpi4.
  unfold alternating, near_antipode. intros [Hl|Hl].
  - destruct (step_east (PI - PI / 1800) l) as (vs & Hb & Hprev & Hλ);
      [ lra | ].
    exists vs. split; [ exact Hb | ].
    rewrite f_R in Hλ.
    assert (Hfl : 0 <= 1000000000 / 298257223563 * l
                  <= 1000000000 / 298257223563 * (PI - PI / 1800)).
    { split; [ apply Rmult_le_pos; lra | apply Rmult_le_compat_l; lra ]. }
    split.
    + apply not_converged. rewrite Hprev, Hλ.
      rewrite Rabs_pos_eq; nra.
    + right. rewrite Hλ. lra.
  - destruct (step_west (PI - PI / 1800) l) as (vs & Hb & Hprev & Hλ);
      [ lra | ].
    exists vs. split; [ exact Hb | ].
    rewrite f_R in Hλ.
    assert (Hfl : 1000000000 / 298257223563 * (PI / 2)
                  <= 1000000000 / 298257223563 * (2 * PI - l)
                  <= 1000000000 / 298257223563 * (PI - PI / 1000)).
    { split; apply Rmult_le_compat_l; lra. }
    split.
    + apply not_converged. rewrite Hprev, Hλ.
      rewrite Rabs_left; lra.
    + left. rewrite Hλ. lra.
Qed.

(** The loop without limit never leaves. *)
Lemma alternating_forever (k : nat) :
  forall l : R, alternating l ->
    exists l' : R, nth_λ near_antipode 0 1 0 1 k l = Some l'.
Proof.
  induction k as [|k IH]; intros l Hl.
  - exists l. reflexivity.
  - cbn [nth_λ].
    destruct (alternating_step l Hl) as (vs & -> & -> & Hl').
    apply IH. exact Hl'.
Qed.

(** Two points of the equator, 179.9° apart. *)
Lemma Δλ_of_near_antipode : Δλ_of (D:=R) 0 (lit 179.9) = near_antipode.
Proof.
  unfold Δλ_of, near_antipode. rewrite toRad_R.
  cbn [dsub dmul RealArith]. real_lits. lra.
Qed.

Lemma near_antipode_run :
  exists l : R,
    nth_λ (Δλ_of 0 (lit 179.9)) (sin (U_of 0)) (cos (U_of 0))
          (sin (U_of 0)) (cos (U_of 0)) 100 (Δλ_of 0 (lit 179.9)) = Some l.
Proof.
  rewrite Δλ_of_near_antipode, U_of_equator.
  cbn [sin cos RealArith]. rewrite sin_0, cos_0.
  apply alternating_forever. left.
  pose proof PI2_3_2. unfold near_antipode. lra.
Qed.

End NearAntipodal.

(** ** Exact real arithmetic: relations between calls *)

Section Relations.

Local Open Scope R_scope.






Lemma Haversine_shift (lat1 lon1 lat2 lon2 d : R) (unit : Units) :
  Haversine lat1 (lon1 + d) lat2 (lon2 + d) unit
  = Haversine lat1 lon1 lat2 lon2 unit.
Proof.
  rewrite !Haversine_R.
  replace (lon2 + d - (lon1 + d)) with (lon2 - lon1) by lra. reflexivity.
Qed.

Lemma SLC_shift (lat1 lon1 lat2 lon2 d : R) (unit : Units) :
  SLC lat1 (lon1 + d) lat2 (lon2 + d) unit = SLC lat1 lon1 lat2 lon2 unit.
Proof. rewrite <- !spherical_agree. apply Haversine_shift. Qed.



(** C10.  For every arithmetic the three methods read the two
    longitudes only through their difference ([lon2 − lon1], for SLC
    [lon1 − lon2]): two calls whose longitudes have the same difference
    return the same value.  Over the reals a shift of both longitudes by
    the same amount [d] keeps the difference, so each of the three methods
    returns the same number. *)
Theorem distance_longitude_shift :
  (forall (D : Type) (ops : DoubleOps D)
          (lat1 lon1 lat2 lon2 lon1' lon2' : D) (unit : Units),
     (lon2 - lon1 = lon2' - lon1')%D ->
     (lon1 - lon2 = lon1' - lon2')%D ->
     Haversine lat1 lon1 lat2 lon2 unit
     = Haversine lat1 lon1' lat2 lon2' unit /\
     SLC lat1 lon1 lat2 lon2 unit = SLC lat1 lon1' lat2 lon2' unit /\
     Vincenty lat1 lon1 lat2 lon2 unit = Vincenty lat1 lon1' lat2 lon2' unit)
  /\
  (forall (lat1 lon1 lat2 lon2 d : R) (unit : Units),
     Haversine lat1 (lon1 + d) lat2 (lon2 + d) unit
     = Haversine lat1 lon1 lat2 lon2 unit /\
     SLC lat1 (lon1 + d) lat2 (lon2 + d) unit
     = SLC lat1 lon1 lat2 lon2 unit /\
     Vincenty lat1 (lon1 + d) lat2 (lon2 + d) unit
     = Vincenty lat1 lon1 lat2 lon2 unit).
Proof.
  split.
  - intros D ops lat1 lon1 lat2 lon2 lon1' lon2' unit H21 H12.
    split; [ apply Haversine_longitude_difference; exact H21 | ].
    split; [ apply SLC_longitude_difference; exact H12 | ].
    unfold Vincenty.
    rewrite (Vincenty_longitude_difference 100 lat1 lon1 lat2 lon2
               lon1' lon2' unit H21).
    reflexivity.
  - intros lat1 lon1 lat2 lon2 d unit.
    split; [ apply Haversine_shift | split; [ apply SLC_shift | ] ].
    unfold Vincenty. rewrite Vincenty_shift. reflexivity.
Qed.

End Relations.

(** ** Malformed inputs: NaN and the infinities *)

Section Malformed.

Local Open Scope double_scope.

Lemma xadd_NaN_r (x : xdouble) : xadd x NaN = NaN.
Proof. destruct x; reflexivity. Qed.

Lemma xsub_NaN_r (x : xdouble) : xsub x NaN = NaN.
Proof. destruct x; reflexivity. Qed.

Lemma xmul_NaN_r (x : xdouble) : xmul x NaN = NaN.
Proof. destruct x; reflexivity. Qed.

Lemma xdiv_NaN_r (x : xdouble) : xdiv x NaN = NaN.
Proof. destruct x; reflexivity. Qed.

Lemma xeqb_NaN_r (x : xdouble) : xeqb x NaN = false.
Proof. destruct x; reflexivity. Qed.

Lemma xltb_NaN_r (x : xdouble) : xltb x NaN = false.
Proof. destruct x; reflexivity. Qed.

Lemma xatan2_NaN_r (x : xdouble) : xatan2 x NaN = NaN.
Proof. destruct x; reflexivity. Qed.

(** Rewrites with the propagation of NaN until nothing changes. *)
Ltac propagate_NaN :=
  repeat (cbn [lit π dadd dsub dmul ddiv deqb dltb sin cos tan asin acos atan
               atan2 sqrt fabs XArith
               xadd xsub xneg xmul xdiv xeqb xltb xperiodic xtan xarc xatan
               xatan2 xsqrt xfabs negb];
          rewrite ?xadd_NaN_r, ?xsub_NaN_r, ?xmul_NaN_r, ?xdiv_NaN_r,
                  ?xeqb_NaN_r, ?xltb_NaN_r, ?xatan2_NaN_r).

Lemma Haversine_NaN (lon1 lat2 lon2 : xdouble) (unit : Units) :
  Haversine NaN lon1 lat2 lon2 unit = NaN.
Proof.
  unfold Haversine, Haversine_body, try_catch_all. propagate_NaN.
  reflexivity.
Qed.

Lemma SLC_NaN (lon1 lat2 lon2 : xdouble) (unit : Units) :
  SLC NaN lon1 lat2 lon2 unit = NaN.
Proof.
  unfold SLC, SLC_body, try_catch_all. propagate_NaN.
  reflexivity.
Qed.

Lemma toRad_X : toRad (D:=xdouble) = Fin (PI / 180).
Proof.
  unfold toRad. cbn [π lit ddiv XArith xdiv].
  destruct (Req_dec_T (Q2R 180.0) 0) as [E|_].
  - exfalso. revert E. unfold Q2R. cbn [Qnum Qden]. lra.
  - do 2 f_equal. unfold Q2R. cbn [Qnum Qden]. lra.
Qed.

Lemma PInf_toRad : PInf * toRad = PInf.
Proof.
  rewrite toRad_X. cbn [dmul XArith xmul]. pose proof PI_RGT_0.
  destruct (Req_dec_T (PI / 180) 0); [ lra | ].
  unfold signed_inf. destruct (Rlt_dec 0 (PI / 180)); [ reflexivity | lra ].
Qed.

Lemma Fin_toRad (r : R) : Fin r * toRad = Fin (r * (PI / 180)).
Proof. rewrite toRad_X. reflexivity. Qed.

Lemma NInf_half : NInf / lit 2 = NInf.
Proof.
  cbn [ddiv lit XArith xdiv].
  destruct (Rlt_dec (Q2R 2) 0) as [E|_]; [ | reflexivity ].
  exfalso. revert E. unfold Q2R. cbn [Qnum Qden]. lra.
Qed.

Lemma Haversine_PInf (lon1 lat2 lon2 : R) (unit : Units) :
  Haversine PInf (Fin lon1) (Fin lat2) (Fin lon2) unit = NaN.
Proof.
  unfold Haversine, Haversine_body, try_catch_all.
  rewrite PInf_toRad, Fin_toRad.
  change (Fin (lat2 * (PI / 180)) - PInf) with NInf.
  rewrite NInf_half. propagate_NaN. reflexivity.
Qed.

Lemma SLC_PInf (lon1 lat2 lon2 : R) (unit : Units) :
  SLC PInf (Fin lon1) (Fin lat2) (Fin lon2) unit = NaN.
Proof.
  unfold SLC, SLC_body, try_catch_all.
  rewrite PInf_toRad. propagate_NaN. reflexivity.
Qed.

Lemma NaN_not_sentinel : NaN <> lit (-1).
Proof. discriminate. Qed.

(** C1, on malformed input.  With NaN or +∞ for the first latitude,
    Haversine and SLC return NaN: nothing is thrown inside their [try]
    blocks, so the handler that returns -1 does not run.  NaN is not the
    sentinel and is not a non-negative number. *)
Theorem Haversine_SLC_return_NaN (lon1 lat2 lon2 : R) (unit : Units) :
  Haversine NaN (Fin lon1) (Fin lat2) (Fin lon2) unit = NaN /\
  SLC NaN (Fin lon1) (Fin lat2) (Fin lon2) unit = NaN /\
  Haversine PInf (Fin lon1) (Fin lat2) (Fin lon2) unit = NaN /\
  SLC PInf (Fin lon1) (Fin lat2) (Fin lon2) unit = NaN /\
  NaN <> lit (-1) /\
  (lit 0 <? NaN) = false /\ (NaN =? lit 0) = false.
Proof.
  split; [ apply Haversine_NaN | ].
  split; [ apply SLC_NaN | ].
  split; [ apply Haversine_PInf | ].
  split; [ apply SLC_PInf | ].
  split; [ apply NaN_not_sentinel | ].
  split; reflexivity.
Qed.

(** The reduced latitude of NaN is NaN. *)
Lemma U_of_NaN : U_of NaN = NaN.
Proof. unfold U_of. propagate_NaN. reflexivity. Qed.

(** With NaN for the first reduced latitude a body execution reaches the
    convergence test, fails it and leaves NaN in [λ]. *)
Lemma body_NaN (Δλ sinU2 cosU2 l : xdouble) :
  exists vs : loop_vars,
    loop_body Δλ NaN NaN sinU2 cosU2 l = Tested vs /\
    λ vs = NaN /\ converged vs = false.
Proof.
  unfold loop_body. propagate_NaN.
  eexists. split; [ reflexivity | ].
  unfold converged. cbn [λ λPrev]. propagate_NaN. split; reflexivity.
Qed.

Lemma nth_λ_NaN (Δλ sinU2 cosU2 : xdouble) (k : nat) :
  forall l : xdouble, exists l' : xdouble,
    nth_λ Δλ NaN NaN sinU2 cosU2 k l = Some l'.
Proof.
  induction k as [|k IH]; intros l.
  - exists l. reflexivity.
  - cbn [nth_λ].
    destruct (body_NaN Δλ sinU2 cosU2 l) as (vs & -> & _ & ->).
    apply IH.
Qed.

(** Vincenty does map a NaN latitude to the sentinel: every convergence
    test fails, and the throw after the loop is caught. *)
Lemma Vincenty_NaN (lon1 lat2 lon2 : xdouble) (unit : Units) :
  Vincenty NaN lon1 lat2 lon2 unit = lit (-1).
Proof.
  destruct (nth_λ_NaN (Δλ_of lon1 lon2) (sin (U_of lat2)) (cos (U_of lat2))
              100 (Δλ_of lon1 lon2)) as [l Hl].
  apply (proj1 (Vincenty_exhausted_or_converged NaN lon1 lat2 lon2 unit) l).
  rewrite U_of_NaN. exact Hl.
Qed.

Lemma unit_factor_X (unit : Units) :
  unit_factor (D:=xdouble) unit = Fin (unit_factor (D:=R) unit).
Proof.
  destruct unit; [ reflexivity | ].
  unfold unit_factor, mi2km. cbn [lit ddiv XArith RealArith xdiv].
  destruct (Req_dec_T (Q2R 1.609344) 0) as [E|_]; [ | reflexivity ].
  exfalso. revert E. unfold Q2R. cbn [Qnum Qden]. lra.
Qed.

(** On finite inputs nothing leaves the domain of [sqrt], [asin] or
    [acos]: Haversine and SLC return the finite number they return over
    the reals. *)
Lemma Haversine_finite (lat1 lon1 lat2 lon2 : R) (unit : Units) :
  Haversine (Fin lat1) (Fin lon1) (Fin lat2) (Fin lon2) unit
  = Fin (Haversine lat1 lon1 lat2 lon2 unit).
Proof.
  unfold Haversine, Haversine_body, try_catch_all.
  rewrite unit_factor_X, toRad_X, toRad_R.
  cbn [lit dadd dsub dmul ddiv sin cos asin sqrt XArith RealArith
       xadd xsub xneg xmul xdiv xperiodic].
  destruct (Req_dec_T (Q2R 2) 0) as [E|_].
  { exfalso. revert E. unfold Q2R. cbn [Qnum Qden]. lra. }
  cbn [xmul xadd xperiodic].
  assert (H2 : Q2R 2 = 2%R) by (unfold Q2R; cbn [Qnum Qden]; lra).
  rewrite !H2.
  replace ((lon2 + - lon1) / 2 * (PI / 180))%R
    with (((lon2 - lon1) * (PI / 180)) / 2)%R by lra.
  replace ((lon2 - lon1) / 2 * (PI / 180))%R
    with (((lon2 - lon1) * (PI / 180)) / 2)%R by lra.
  replace (lat2 * (PI / 180) + - (lat1 * (PI / 180)))%R
    with (lat2 * (PI / 180) - lat1 * (PI / 180))%R by lra.
  rewrite haversine_radicand.
  pose proof (central_cos_bound (lat1 * (PI / 180)) (lat2 * (PI / 180))
                ((lon2 - lon1) * (PI / 180))) as Hc.
  set (h := ((1 - central_cos _ _ _) / 2)%R) in *.
  assert (Hh : (0 <= h <= 1)%R) by (unfold h; lra).
  cbn [xsqrt]. destruct (Rlt_dec h 0) as [|_]; [ lra | ].
  assert (Hs : (0 <= R_sqrt.sqrt h <= 1)%R).
  { split; [ apply sqrt_pos | ].
    rewrite <- sqrt_1. apply sqrt_le_1_alt. lra. }
  cbn [xarc].
  destruct (Rle_dec (-1) (R_sqrt.sqrt h)) as [_|]; [ | lra ].
  destruct (Rle_dec (R_sqrt.sqrt h) 1) as [_|]; [ | lra ].
  reflexivity.
Qed.

Lemma SLC_finite (lat1 lon1 lat2 lon2 : R) (unit : Units) :
  SLC (Fin lat1) (Fin lon1) (Fin lat2) (Fin lon2) unit
  = Fin (SLC lat1 lon1 lat2 lon2 unit).
Proof.
  unfold SLC, SLC_body, try_catch_all.
  rewrite unit_factor_X, toRad_X, toRad_R.
  cbn [lit dadd dsub dmul ddiv sin cos acos XArith RealArith
       xadd xsub xneg xmul xdiv xperiodic].
  replace (lon1 + - lon2)%R with (lon1 - lon2)%R by lra.
  match goal with
  | |- context [xarc Ratan.acos (Fin ?x)] =>
      assert (Hc : (-1 <= x <= 1)%R)
  end.
  { replace ((lon1 - lon2) * (PI / 180))%R
      with (- ((lon2 - lon1) * (PI / 180)))%R by lra.
    rewrite cos_neg.
    apply (central_cos_bound (lat1 * (PI / 180)) (lat2 * (PI / 180))
             ((lon2 - lon1) * (PI / 180))). }
  cbn [xarc].
  destruct (Rle_dec (-1) _) as [_|]; [ | lra ].
  destruct (Rle_dec _ 1) as [_|]; [ | lra ].
  reflexivity.
Qed.

(** On finite inputs, without rounding, Haversine and SLC return the
    same finite, non-negative number. *)
Lemma spherical_finite_nonneg (lat1 lon1 lat2 lon2 : R) (unit : Units) :
  exists d : R,
    (0 <= d)%R /\
    Haversine (Fin lat1) (Fin lon1) (Fin lat2) (Fin lon2) unit = Fin d /\
    SLC (Fin lat1) (Fin lon1) (Fin lat2) (Fin lon2) unit = Fin d.
Proof.
  exists (Haversine lat1 lon1 lat2 lon2 unit).
  split; [ apply Haversine_nonneg | ].
  split; [ apply Haversine_finite | ].
  rewrite spherical_agree. apply SLC_finite.
Qed.

End Malformed.

(** ** Division by zero *)

Section Division.

Local Open Scope R_scope.

(** The constants of Vincenty are formed without a trap. *)
Lemma f_untrapped : f (D:=option R) = Some (f (D:=R)).
Proof.
  unfold f. cbn [lit ddiv TrapArith RealArith trap_div].
  destruct (Req_dec_T (Q2R 298.257223563) 0) as [E|_]; [ | reflexivity ].
  exfalso. revert E. unfold Q2R. cbn [Qnum Qden]. lra.
Qed.

Lemma a_untrapped : a (D:=option R) = Some (a (D:=R)).
Proof. reflexivity. Qed.

Lemma b_untrapped : b (D:=option R) = Some (b (D:=R)).
Proof. unfold b. rewrite f_untrapped. reflexivity. Qed.

(** Decides the zero tests of the divisors: a divisor is a non-zero
    constant or is known to differ from zero. *)
Ltac nonzero_divisors :=
  repeat match goal with
  | |- context [Req_dec_T ?y 0] =>
      destruct (Req_dec_T y 0) as [E|_];
      [ exfalso;
        first [ contradiction
              | revert E; unfold Q2R; cbn [Qnum Qden]; lra
              | nra ]
      | cbn [trap2 trap_div] ]
  end.

(** With a trapping division a body execution on real numbers assigns
    the same variables as over the reals: no quotient by zero is formed. *)
Lemma body_untrapped (Δλ s1 c1 s2 c2 l : R) :
  loop_body (Some Δλ) (Some s1) (Some c1) (Some s2) (Some c2) (Some l)
  = untrapped (loop_body Δλ s1 c1 s2 c2 l).
Proof.
  unfold loop_body. rewrite f_untrapped, a_untrapped, b_untrapped.
  cbn [lit dadd dsub dmul ddiv deqb dltb sin cos atan2 sqrt
       TrapArith RealArith trap1 trap2 trap_cmp].
  set (sσ := R_sqrt.sqrt _).
  assert (H0 : Q2R 0.0 = 0) by (unfold Q2R; cbn [Qnum Qden]; lra).
  rewrite !H0.
  destruct (Req_bool sσ 0) eqn:Eσ; [ reflexivity | ].
  apply Req_bool_false_inv in Eσ.
  cbn [trap_div]. destruct (Req_dec_T sσ 0) as [|_]; [ contradiction | ].
  cbn [trap2 trap_cmp negb].
  set (q := Q2R 1.0 - _).
  pose proof b_pos as Hb.
  destruct (Req_bool q 0) eqn:Eq; cbn [negb trap2 trap_div].
  - nonzero_divisors. reflexivity.
  - apply Req_bool_false_inv in Eq. nonzero_divisors. reflexivity.
Qed.

(** C6.  For every arithmetic, a body execution that gets past the zero
    test of the sine of σ reaches the convergence test with every variable
    assigned, whatever cos²α is: when cos²α compares equal to zero, cos2σM
    is the literal 0, and only otherwise is it the difference with the
    quotient by cos²α.  On a machine where a division by zero is an error
    a body execution on real numbers assigns the same variables as over
    the reals: the quotient by cos²α (as every other quotient of the body)
    is formed only with a divisor different from zero. *)
Theorem cos2sigmaM_division_guarded :
  (forall (D : Type) (ops : DoubleOps D) (Δλ sinU1 cosU1 sinU2 cosU2 l : D),
     deqb (sinσ_of sinU1 cosU1 sinU2 cosU2 l) (lit 0.0) = false ->
     exists vs : loop_vars,
       loop_body Δλ sinU1 cosU1 sinU2 cosU2 l = Tested vs /\
       (deqb (cos2α vs) (lit 0.0) = true -> cos2σM vs = lit 0.0) /\
       (deqb (cos2α vs) (lit 0.0) = false ->
        cos2σM vs = (cosσ vs - (lit 2.0 * sinU1 * sinU2) / cos2α vs)%D))
  /\
  (forall Δλ s1 c1 s2 c2 l : R,
     loop_body (Some Δλ) (Some s1) (Some c1) (Some s2) (Some c2) (Some l)
     = untrapped (loop_body Δλ s1 c1 s2 c2 l)).
Proof.
  split.
  - intros D ops. apply cos2σM_guard.
  - apply body_untrapped.
Qed.

End Division.

(** ** Concrete runs *)

Section Runs.

Local Open Scope R_scope.

Local Abbreviation rsin := Rtrigo_def.sin.
Local Abbreviation rcos := Rtrigo_def.cos.

(** On a meridian ([Δλ = 0]) the first body execution that gets past the
    zero test leaves [λ] at 0 and meets the convergence test. *)
Lemma body_meridian (s1 c1 s2 c2 : R) (vs : loop_vars) :
  loop_body 0 s1 c1 s2 c2 0 = Tested vs -> converged vs = true.
Proof.
  unfold loop_body.
  cbn [dadd dsub dmul ddiv deqb dltb sin cos atan2 sqrt RealArith].
  rewrite sin_0.
  destruct (Req_bool _ _); [ discriminate | ].
  intros [= <-]. unfold converged. rewrite ε_R. cbn [λ λPrev].
  cbn [dadd dsub dmul ddiv deqb dltb fabs RealArith].
  set (sσ := R_sqrt.sqrt _).
  replace (c1 * c2 * 0 / sσ) with 0 by (unfold Rdiv; ring).
  match goal with
  | |- Rlt_bool (Rabs ?x) _ = true => replace x with 0 by ring
  end.
  rewrite Rabs_R0. unfold Rlt_bool.
  destruct (Rlt_dec 0 (/ 1000000000000)) as [_|H]; [ reflexivity | ].
  exfalso. apply H. lra.
Qed.

(** Latitude 45° has a reduced latitude strictly between 0 and π/2. *)
Lemma U_of_45 : 0 < U_of (D:=R) (lit 45) < PI / 2.
Proof.
  unfold U_of. rewrite toRad_R.
  cbn [dsub dmul atan tan RealArith].
  replace (lit 45 * (PI / 180)) with (PI / 4) by (real_arith; lra).
  rewrite tan_PI4, Rmult_1_r.
  assert (Hf : 0 < lit 1 - f (D:=R)).
  { unfold f. real_arith. lra. }
  split.
  - rewrite <- atan_0. apply atan_increasing. exact Hf.
  - apply atan_bound.
Qed.

(** From the equator to latitude 45° on one meridian the sine of σ is
    not zero. *)
Lemma sinσ_of_meridian_45 :
  deqb (sinσ_of (sin (U_of 0)) (cos (U_of 0))
                (sin (U_of (lit 45))) (cos (U_of (lit 45))) (Δλ_of 0 0))
       (lit 0.0) = false.
Proof.
  rewrite U_of_equator.
  assert (E : Δλ_of (D:=R) 0 0 = 0).
  { unfold Δλ_of. cbn [dsub dmul RealArith]. ring. }
  rewrite E. unfold sinσ_of.
  cbn [dadd dsub dmul deqb sin cos sqrt RealArith].
  rewrite sin_0, cos_0. rewrite lit_zero_R.
  pose proof U_of_45 as [Hlo Hhi].
  set (u := U_of (lit 45)) in *.
  assert (Hs : 0 < rsin u) by (apply sin_gt_0; lra).
  replace (rcos u * 0 * (rcos u * 0) +
           (1 * rsin u - 0 * rcos u * 1) * (1 * rsin u - 0 * rcos u * 1))
    with (Rsqr (rsin u)) by (unfold Rsqr; ring).
  rewrite sqrt_Rsqr by lra.
  apply Req_bool_false. lra.
Qed.

(** Two points of the equator a quarter turn apart: the azimuth is
    equatorial and cos²α is zero. *)
Lemma sinσ_of_quarter :
  deqb (sinσ_of (D:=R) 0 1 0 1 (PI / 2)) (lit 0.0) = false.
Proof.
  unfold sinσ_of. cbn [dadd dsub dmul deqb sin cos sqrt RealArith].
  rewrite sin_PI2, cos_PI2, lit_zero_R.
  replace (1 * 1 * (1 * 1) + (1 * 0 - 0 * 1 * 0) * (1 * 0 - 0 * 1 * 0))
    with 1 by ring.
  rewrite sqrt_1. apply Req_bool_false. lra.
Qed.

Lemma cos2α_quarter (Δλ : R) (vs : loop_vars) :
  loop_body Δλ 0 1 0 1 (PI / 2) = Tested vs ->
  deqb (cos2α vs) (lit 0.0) = true.
Proof.
  unfold loop_body.
  cbn [dadd dsub dmul ddiv deqb dltb sin cos atan2 sqrt RealArith].
  rewrite sin_PI2, cos_PI2.
  replace (1 * 1 * (1 * 1) + (1 * 0 - 0 * 1 * 0) * (1 * 0 - 0 * 1 * 0))
    with 1 by ring.
  rewrite sqrt_1.
  destruct (Req_bool 1 _); [ discriminate | ].
  intros [= <-]. cbn [cos2α]. apply Req_bool_true. real_arith. lra.
Qed.

(** The run from the equator to latitude 45° on one meridian converges
    in the first body execution. *)
Lemma meridian_45_run :
  exists vs : loop_vars,
    loop_body (Δλ_of 0 0) (sin (U_of 0)) (cos (U_of 0))
              (sin (U_of (lit 45))) (cos (U_of (lit 45))) (Δλ_of 0 0)
    = Tested vs /\ converged vs = true.
Proof.
  destruct (body_nonzero (Δλ_of 0 0) _ _ _ _ _ sinσ_of_meridian_45)
    as (vs & Hb & _).
  exists vs. split; [ exact Hb | ].
  assert (E : Δλ_of (D:=R) 0 0 = 0).
  { unfold Δλ_of. cbn [dsub dmul RealArith]. ring. }
  rewrite E in Hb. apply (body_meridian _ _ _ _ _ Hb).
Qed.


(** Non-convergence on a NaN latitude and between two points of the
    equator 179.9° apart; convergence in one execution from (0°, 0°) to
    (45°, 0°). *)
Lemma Vincenty_converged_or_sentinel_witness :
  Vincenty NaN (Fin 0) (Fin 0) (Fin 0) SI = lit (-1) /\
  Vincenty 0 0 0 (lit 179.9) SI = lit (D:=R) (-1) /\
  exists vs : loop_vars,
    converged vs = true /\
    Vincenty_loop 1 0 0 (lit 45) 0 = Some (LoopBreak 100 vs) /\
    Vincenty 0 0 (lit 45) 0 SI
    = (b * A vs * (σ vs - Δσ vs) / lit 1000.0 * unit_factor SI)%D /\
    Vincenty 0 0 (lit 45) 0 SI <> lit (D:=R) (-1).
Proof.
  destruct Vincenty_converged_or_sentinel as [Hany Hreal].
  split; [ | split ].
  - destruct (nth_λ_NaN (Δλ_of (Fin 0) (Fin 0))
                (sin (U_of (Fin 0))) (cos (U_of (Fin 0)))
                100 (Δλ_of (Fin 0) (Fin 0))) as [l Hl].
    apply (proj1 (Hany xdouble XArith NaN (Fin 0) (Fin 0) (Fin 0) SI) l).
    rewrite U_of_NaN. exact Hl.
  - destruct near_antipode_run as [l Hl].
    exact (proj1 (proj1 (Hany R RealArith 0 0 0 (lit 179.9) SI) l Hl)).
  - destruct meridian_45_run as (vs & Hb & Hc).
    exists vs. split; [ exact Hc | ].
    destruct (proj2 (Hany R RealArith 0 0 (lit 45) 0 SI)
                0%nat (Δλ_of 0 0) vs (Nat.lt_0_succ 99) eq_refl Hb Hc)
      as (_ & Hret & Hrun).
    split; [ exact (proj1 (Hrun 1%nat (Nat.lt_0_succ 0))) | ].
    split; [ exact Hret | ].
    rewrite Hret.
    exact (proj2 (Hreal 0 0 (lit 45) 0 (Δλ_of 0 0) SI vs Hb)).
Defined.


(** Two points of the equator a quarter turn apart: cos²α is zero and
    cos2σM takes the default. *)
Lemma cos2sigmaM_division_guarded_witness :
  deqb (sinσ_of (D:=R) 0 1 0 1 (PI / 2)) (lit 0.0) = false /\
  exists vs : loop_vars,
    loop_body (PI / 2) 0 1 0 1 (PI / 2) = Tested vs /\
    deqb (cos2α vs) (lit 0.0) = true /\
    cos2σM vs = lit 0.0 /\
    loop_body (Some (PI / 2)) (Some 0) (Some 1) (Some 0) (Some 1)
              (Some (PI / 2))
    = Tested (untrapped_vars vs).
Proof.
  split; [ exact sinσ_of_quarter | ].
  destruct cos2sigmaM_division_guarded as [Hany Htrap].
  destruct (Hany R RealArith (PI / 2) 0 1 0 1 (PI / 2) sinσ_of_quarter)
    as (vs & Hb & Hz & _).
  exists vs. split; [ exact Hb | ].
  split; [ exact (cos2α_quarter _ _ Hb) | ].
  split; [ exact (Hz (cos2α_quarter _ _ Hb)) | ].
  rewrite (Htrap (PI / 2) 0 1 0 1 (PI / 2)), Hb. reflexivity.
Defined.

Lemma shifted_longitudes :
  ((-63 : R) - -73 = 10 - 0 /\ (-73 : R) - -63 = 0 - 10)%R.
Proof. split; lra. Qed.

(** Longitudes -73° and -63° against 0° and 10°. *)
Lemma distance_longitude_shift_witness :
  Haversine (40 : R) (-73) 50 (-63) SI = Haversine (40 : R) 0 50 10 SI /\
  SLC (40 : R) (-73) 50 (-63) SI = SLC (40 : R) 0 50 10 SI /\
  Vincenty (40 : R) (-73) 50 (-63) SI = Vincenty (40 : R) 0 50 10 SI.
Proof.
  exact (proj1 distance_longitude_shift R RealArith
           40 (-73) 50 (-63) 0 10 SI
           (proj1 shifted_longitudes) (proj2 shifted_longitudes)).
Defined.

(** JFK to LHR returns within 100 body executions. *)
Lemma Vincenty_terminates_witness :
  Vincenty_fuel 100 (lit 40.641766) (lit (-73.780968))
                    (lit 51.470020) (lit (-0.454295)) SI
  = Some (Vincenty (lit (D:=R) 40.641766) (lit (-73.780968))
                   (lit 51.470020) (lit (-0.454295)) SI).
Proof.
  destruct (Vincenty_terminates
              (lit (D:=R) 40.641766) (lit (-73.780968))
              (lit 51.470020) (lit (-0.454295)) SI)
    as (n & ex & Hn & _ & _ & _ & _ & Hret).
  apply Hret. exact (proj2 Hn).
Defined.

End Runs.

(** * Further properties of the three methods *)

(** ** Units, range and antipodes of the spherical methods *)

Section SphericalRange.

Local Open Scope R_scope.

(** π to four decimals. *)
Lemma PI_decimals : 31415 / 10000 < PI < 31416 / 10000.
Proof.
  pose proof (PI_2_3_7_ineq 3) as [Hlo Hhi].
  unfold sum_f_R0, tg_alt, PI_2_3_7_tg, Ratan_seq in Hlo, Hhi.
  simpl in Hlo, Hhi. lra.
Qed.

(** The loop of Vincenty ends within 100 body executions, and the call
    returns what follows its exit. *)
Lemma Vincenty_loop_ends (lat1 lon1 lat2 lon2 : R) :
  exists ex : loop_exit,
    Vincenty_loop 100 lat1 lon1 lat2 lon2 = Some ex /\
    forall unit : Units,
      Vincenty lat1 lon1 lat2 lon2 unit
      = try_catch_all (after_loop unit ex) (lit (-1)).
Proof.
  destruct (do_while_terminates (Δλ_of lon1 lon2)
              (sin (U_of lat1)) (cos (U_of lat1))
              (sin (U_of lat2)) (cos (U_of lat2)) 99 (Δλ_of lon1 lon2))
    as (n & ex & Hn & Hrun & _ & _).
  change (Vincenty_loop n lat1 lon1 lat2 lon2 = Some ex) in Hrun.
  apply (Vincenty_loop_mono n 100) in Hrun; [ | lia ].
  exists ex. split; [ exact Hrun | ].
  intros unit. apply (Vincenty_exit 100 _ _ _ _ unit _ Hrun).
Qed.

(** What Vincenty returns, by the way its loop was left. *)
Lemma Vincenty_by_exit (lat1 lon1 lat2 lon2 : R) :
  (forall unit : Units, Vincenty lat1 lon1 lat2 lon2 unit = 0) \/
  (forall unit : Units, Vincenty lat1 lon1 lat2 lon2 unit = -1) \/
  (exists d : R,
     0 < d /\
     forall unit : Units,
       Vincenty lat1 lon1 lat2 lon2 unit = d * unit_factor unit).
Proof.
  destruct (Vincenty_loop_ends lat1 lon1 lat2 lon2) as (ex & Hrun & Hret).
  rewrite Vincenty_loop_eq in Hrun.
  destruct ex as [v|il vs|il vs].
  - left. intros unit. rewrite Hret.
    rewrite (do_while_return_value _ _ _ _ _ _ _ _ _ Hrun).
    cbn [after_loop try_catch_all]. apply lit_zero_R.
  - destruct (do_while_exit_vars _ _ _ _ _ _ _ _ _ _ (or_introl Hrun))
      as [l Hb].
    destruct (il =? 0)%Z eqn:Hil.
    + right. left. intros unit. rewrite Hret. cbn [after_loop].
      rewrite Hil. apply sentinel_R.
    + right. right.
      exists (b * A vs * (σ vs - Δσ vs) / lit 1000.0)%D. split.
      * pose proof (distance_positive _ _ _ _ _ _ _ SI
                      (sin2_cos2 _) (sin2_cos2 _) Hb) as Hpos.
        rewrite unit_factor_R in Hpos.
        set (d := (b * A vs * (σ vs - Δσ vs) / lit 1000.0)%D) in *.
        change (0 < d * 1) in Hpos. lra.
      * intros unit. rewrite Hret. cbn [after_loop]. rewrite Hil.
        reflexivity.
  - destruct (do_while_exit_vars _ _ _ _ _ _ _ _ _ _ (or_intror Hrun))
      as [l Hb].
    destruct (il =? 0)%Z eqn:Hil.
    + right. left. intros unit. rewrite Hret. cbn [after_loop].
      rewrite Hil. apply sentinel_R.
    + right. right.
      exists (b * A vs * (σ vs - Δσ vs) / lit 1000.0)%D. split.
      * pose proof (distance_positive _ _ _ _ _ _ _ SI
                      (sin2_cos2 _) (sin2_cos2 _) Hb) as Hpos.
        rewrite unit_factor_R in Hpos.
        set (d := (b * A vs * (σ vs - Δσ vs) / lit 1000.0)%D) in *.
        change (0 < d * 1) in Hpos. lra.
      * intros unit. rewrite Hret. cbn [after_loop]. rewrite Hil.
        reflexivity.
Qed.

(** X1.  Over the reals the miles are the kilometres divided by 1.609344:
    for Haversine and SLC always; for Vincenty whenever the call does not
    return the sentinel, and the sentinel -1 is returned for both units or
    for none. *)
Theorem miles_are_scaled_kilometres (lat1 lon1 lat2 lon2 : R) :
  Haversine lat1 lon1 lat2 lon2 US * 1.609344
  = Haversine lat1 lon1 lat2 lon2 SI /\
  SLC lat1 lon1 lat2 lon2 US * 1.609344 = SLC lat1 lon1 lat2 lon2 SI /\
  (Vincenty lat1 lon1 lat2 lon2 SI = -1 /\
   Vincenty lat1 lon1 lat2 lon2 US = -1
   \/
   Vincenty lat1 lon1 lat2 lon2 SI <> -1 /\
   Vincenty lat1 lon1 lat2 lon2 US <> -1 /\
   Vincenty lat1 lon1 lat2 lon2 US * 1.609344
   = Vincenty lat1 lon1 lat2 lon2 SI).
Proof.
  split; [ | split ].
  - rewrite !Haversine_R, !unit_factor_R. lra.
  - rewrite !SLC_R, !unit_factor_R. lra.
  - destruct (Vincenty_by_exit lat1 lon1 lat2 lon2) as [H|[H|(d & Hd & H)]].
    + right. rewrite !H. repeat split; lra.
    + left. split; apply H.
    + right. rewrite !H, !unit_factor_R.
      assert (0 < d * (1 / 1.609344)) by (apply Rmult_lt_0_compat; lra).
      repeat split; lra.
Qed.




End SphericalRange.

(** ** A full turn in longitude, and the mirror image in the equator *)

Section TurnAndMirror.

Local Open Scope R_scope.

Local Abbreviation rsin := Rtrigo_def.sin.
Local Abbreviation rcos := Rtrigo_def.cos.











(** The reduced latitude of the mirror image in the equator. *)
Lemma U_of_opp (lat : R) : U_of (- lat) = - U_of lat.
Proof.
  unfold U_of. rewrite toRad_R. cbn [dsub dmul atan tan RealArith].
  replace (- lat * (PI / 180)) with (- (lat * (PI / 180))) by ring.
  rewrite tan_neg.
  replace ((lit 1 - f) * - Rtrigo1.tan (lat * (PI / 180)))
    with (- ((lit 1 - f) * Rtrigo1.tan (lat * (PI / 180)))) by ring.
  apply atan_opp.
Qed.

Lemma body_opp (Δλ s1 c1 s2 c2 l : R) :
  loop_body Δλ (- s1) c1 (- s2) c2 l = loop_body Δλ s1 c1 s2 c2 l.
Proof.
  unfold loop_body.
  cbn [dadd dsub dmul ddiv deqb dltb sin cos atan2 sqrt RealArith].
  replace (c1 * - s2 - - s1 * c2 * rcos l)
    with (- (c1 * s2 - s1 * c2 * rcos l)) by ring.
  replace (- (c1 * s2 - s1 * c2 * rcos l) * - (c1 * s2 - s1 * c2 * rcos l))
    with ((c1 * s2 - s1 * c2 * rcos l) * (c1 * s2 - s1 * c2 * rcos l)) by ring.
  replace (- s1 * - s2 + c1 * c2 * rcos l)
    with (s1 * s2 + c1 * c2 * rcos l) by ring.
  replace (lit 2.0 * - s1 * - s2) with (lit 2.0 * s1 * s2) by ring.
  reflexivity.
Qed.

Lemma do_while_opp (Δλ s1 c1 s2 c2 : R) (fuel : nat) :
  forall (iterLimit : Z) (l : R),
    do_while Δλ (- s1) c1 (- s2) c2 fuel iterLimit l
    = do_while Δλ s1 c1 s2 c2 fuel iterLimit l.
Proof.
  induction fuel as [|fuel IH]; intros iterLimit l.
  - reflexivity.
  - rewrite !do_while_S, body_opp.
    destruct (loop_body Δλ s1 c1 s2 c2 l) as [v|vs]; [ reflexivity | ].
    destruct (converged vs); [ reflexivity | ].
    destruct (_ >? _)%Z; [ apply IH | reflexivity ].
Qed.

(** X14.  Over the reals each of the three methods returns the same
    number for the mirror images of the two points in the equator (both
    latitudes negated). *)
Theorem equator_mirror (lat1 lon1 lat2 lon2 : R) (unit : Units) :
  Haversine (- lat1) lon1 (- lat2) lon2 unit
  = Haversine lat1 lon1 lat2 lon2 unit /\
  SLC (- lat1) lon1 (- lat2) lon2 unit = SLC lat1 lon1 lat2 lon2 unit /\
  Vincenty (- lat1) lon1 (- lat2) lon2 unit
  = Vincenty lat1 lon1 lat2 lon2 unit.
Proof.
  assert (H : SLC (- lat1) lon1 (- lat2) lon2 unit
              = SLC lat1 lon1 lat2 lon2 unit).
  { rewrite !SLC_R. unfold central_cos.
    replace (- lat1 * (PI / 180)) with (- (lat1 * (PI / 180))) by ring.
    replace (- lat2 * (PI / 180)) with (- (lat2 * (PI / 180))) by ring.
    rewrite !sin_neg, !cos_neg.
    replace (- rsin (lat1 * (PI / 180)) * - rsin (lat2 * (PI / 180)))
      with (rsin (lat1 * (PI / 180)) * rsin (lat2 * (PI / 180))) by ring.
    reflexivity. }
  split; [ rewrite !spherical_agree; exact H | split; [ exact H | ] ].
  unfold Vincenty, Vincenty_fuel.
  rewrite !Vincenty_loop_eq, !U_of_opp. cbn [sin cos RealArith].
  rewrite !sin_neg, !cos_neg, do_while_opp. reflexivity.
Qed.

End TurnAndMirror.

(** ** Every input, finite or not: what the sentinel stands for *)

Section EveryInput.

Local Open Scope double_scope.

Ltac special_values :=
  repeat (cbn [lit π dadd dsub dmul ddiv deqb dltb sin cos tan asin acos atan
               atan2 sqrt fabs XArith
               xadd xsub xneg xmul xdiv xeqb xltb xperiodic xtan xarc xatan
               xatan2 xsqrt xfabs negb];
          rewrite ?xadd_NaN_r, ?xsub_NaN_r, ?xmul_NaN_r, ?xdiv_NaN_r,
                  ?xeqb_NaN_r, ?xltb_NaN_r, ?xatan2_NaN_r).

Lemma sin_real_or_NaN (x : xdouble) : real_or_NaN (sin x).
Proof. destruct x; [ left | left | left | right; eexists ]; reflexivity. Qed.

Lemma cos_real_or_NaN (x : xdouble) : real_or_NaN (cos x).
Proof. destruct x; [ left | left | left | right; eexists ]; reflexivity. Qed.

Lemma mul_real_or_NaN (x y : xdouble) :
  real_or_NaN x -> real_or_NaN y -> real_or_NaN (x * y).
Proof.
  intros [->|[r ->]] [->|[t ->]];
    [ left | left | left | right; eexists ]; reflexivity.
Qed.

Lemma add_real_or_NaN (x y : xdouble) :
  real_or_NaN x -> real_or_NaN y -> real_or_NaN (x + y).
Proof.
  intros [->|[r ->]] [->|[t ->]];
    [ left | left | left | right; eexists ]; reflexivity.
Qed.

(** The arc sine of a number between 0 and 1 is not negative. *)
Lemma asin_nonneg (x : R) : (0 <= x <= 1)%R -> (0 <= Ratan.asin x)%R.
Proof.
  intros Hx.
  destruct (Rle_dec 0 (Ratan.asin x)) as [|Hn]; [ assumption | exfalso ].
  assert (Hb : (- (PI / 2) <= Ratan.asin x <= PI / 2)%R)
    by (apply asin_bound).
  assert (Hs : (Rtrigo_def.sin (Ratan.asin x) < 0)%R).
  { apply sin_lt_0_var; pose proof PI_RGT_0; lra. }
  rewrite sin_asin in Hs; lra.
Qed.

(** The result of the spherical methods from the central angle. *)
Lemma scaled_angle (ca : R) (unit : Units) :
  (0 <= ca)%R ->
  exists d : R,
    (0 <= d)%R /\ Fin ca * meanR * unit_factor unit = Fin d.
Proof.
  intros Hca. rewrite unit_factor_X.
  exists (ca * Q2R 6371.009 * unit_factor (D:=R) unit)%R.
  split; [ | reflexivity ].
  pose proof (unit_factor_pos unit) as Hu.
  assert (Hm : (0 < Q2R 6371.009)%R)
    by (unfold Q2R; cbn [Qnum Qden]; lra).
  apply Rmult_le_pos; [ apply Rmult_le_pos | ]; lra.
Qed.

Lemma Haversine_NaN_or_distance (lat1 lon1 lat2 lon2 : xdouble)
    (unit : Units) :
  Haversine lat1 lon1 lat2 lon2 unit = NaN \/
  exists d : R, (0 <= d)%R /\ Haversine lat1 lon1 lat2 lon2 unit = Fin d.
Proof.
  unfold Haversine, Haversine_body, try_catch_all. cbv zeta.
  match goal with
  | |- context [sqrt ?x] => assert (Hrad : real_or_NaN x); [ | set (rad := x) in * ]
  end.
  { apply add_real_or_NaN; repeat apply mul_real_or_NaN;
      first [ apply sin_real_or_NaN | apply cos_real_or_NaN ]. }
  destruct Hrad as [->|[t ->]].
  - left. special_values. reflexivity.
  - cbn [sqrt XArith xsqrt].
    destruct (Rlt_dec t 0) as [|Ht]; [ left; special_values; reflexivity | ].
    cbn [asin XArith xarc].
    destruct (Rle_dec (-1) (R_sqrt.sqrt t)) as [_|];
      [ | left; special_values; reflexivity ].
    destruct (Rle_dec (R_sqrt.sqrt t) 1) as [H1|];
      [ | left; special_values; reflexivity ].
    right.
    change (lit 2 * Fin (Ratan.asin (R_sqrt.sqrt t)))
      with (Fin (Q2R 2 * Ratan.asin (R_sqrt.sqrt t))).
    apply scaled_angle.
    pose proof (asin_nonneg (R_sqrt.sqrt t) (conj (sqrt_pos t) H1)).
    assert (Q2R 2 = 2%R) as -> by (unfold Q2R; cbn [Qnum Qden]; lra).
    lra.
Qed.

Lemma SLC_NaN_or_distance (lat1 lon1 lat2 lon2 : xdouble) (unit : Units) :
  SLC lat1 lon1 lat2 lon2 unit = NaN \/
  exists d : R, (0 <= d)%R /\ SLC lat1 lon1 lat2 lon2 unit = Fin d.
Proof.
  unfold SLC, SLC_body, try_catch_all. cbv zeta.
  match goal with
  | |- context [acos ?x] => assert (Hc : real_or_NaN x); [ | set (c := x) in * ]
  end.
  { apply add_real_or_NaN; repeat apply mul_real_or_NaN;
      first [ apply sin_real_or_NaN | apply cos_real_or_NaN ]. }
  destruct Hc as [->|[t ->]].
  - left. special_values. reflexivity.
  - cbn [acos XArith xarc].
    destruct (Rle_dec (-1) t) as [_|];
      [ | left; special_values; reflexivity ].
    destruct (Rle_dec t 1) as [_|];
      [ | left; special_values; reflexivity ].
    right. apply scaled_angle. apply acos_bound.
Qed.

(** X5.  Whatever the four inputs are (finite, NaN or infinite), Haversine
    and SLC return NaN or a finite distance that is not negative: they
    never return the sentinel -1 and never an infinity.  The [catch]
    handlers of the two methods are not reached. *)
Theorem spherical_never_sentinel (lat1 lon1 lat2 lon2 : xdouble)
    (unit : Units) :
  (Haversine lat1 lon1 lat2 lon2 unit = NaN \/
   exists d : R, (0 <= d)%R /\ Haversine lat1 lon1 lat2 lon2 unit = Fin d) /\
  (SLC lat1 lon1 lat2 lon2 unit = NaN \/
   exists d : R, (0 <= d)%R /\ SLC lat1 lon1 lat2 lon2 unit = Fin d) /\
  Haversine lat1 lon1 lat2 lon2 unit <> lit (-1) /\
  SLC lat1 lon1 lat2 lon2 unit <> lit (-1).
Proof.
  pose proof (Haversine_NaN_or_distance lat1 lon1 lat2 lon2 unit) as Hh.
  pose proof (SLC_NaN_or_distance lat1 lon1 lat2 lon2 unit) as Hs.
  assert (Hneg : forall x : xdouble,
            (x = NaN \/ exists d : R, (0 <= d)%R /\ x = Fin d) ->
            x <> lit (-1)).
  { intros x [->|(d & Hd & ->)]; [ discriminate | ].
    cbn [lit XArith]. intros [= E]. revert E Hd.
    unfold Q2R. cbn [Qnum Qden]. lra. }
  repeat split; auto.
Qed.

(** A latitude that is not finite has NaN for reduced latitude. *)
Lemma U_of_not_finite (lat : xdouble) :
  not_finite lat = true -> U_of lat = NaN.
Proof.
  unfold U_of. destruct lat as [| | |r]; [ | | | discriminate ]; intros _.
  - special_values. reflexivity.
  - rewrite PInf_toRad. special_values. reflexivity.
  - replace (NInf * toRad) with NInf.
    + special_values. reflexivity.
    + rewrite toRad_X. cbn [dmul XArith xmul]. pose proof PI_RGT_0.
      destruct (Req_dec_T (PI / 180) 0); [ lra | ].
      unfold signed_inf.
      destruct (Rlt_dec 0 (PI / 180)); [ reflexivity | lra ].
Qed.

(** A longitude that is not finite makes the difference of the longitudes
    not finite. *)
Lemma Δλ_of_not_finite (lon1 lon2 : xdouble) :
  not_finite lon1 || not_finite lon2 = true ->
  not_finite (Δλ_of lon1 lon2) = true.
Proof.
  unfold Δλ_of. rewrite toRad_X. pose proof PI_RGT_0.
  destruct lon1 as [| | |r1], lon2 as [| | |r2];
    cbn [not_finite orb]; intros Hn; try discriminate;
    cbn [dsub dmul XArith xsub xadd xneg xmul];
    try reflexivity;
    destruct (Req_dec_T (PI / 180) 0); try lra;
    unfold signed_inf; destruct (Rlt_dec 0 (PI / 180)); try lra;
    reflexivity.
Qed.

(** A body execution that reads a NaN reduced latitude, or a [λ] that is
    not finite, reaches the convergence test, fails it and leaves NaN
    in [λ]. *)
Lemma body_not_finite (Δλ sinU1 cosU1 sinU2 cosU2 l : xdouble) :
  sinU1 = NaN /\ cosU1 = NaN \/ sinU2 = NaN /\ cosU2 = NaN \/
  not_finite l = true ->
  exists vs : loop_vars,
    loop_body Δλ sinU1 cosU1 sinU2 cosU2 l = Tested vs /\
    λ vs = NaN /\ converged vs = false.
Proof.
  intros [[-> ->]|[[-> ->]|Hl]].
  - apply body_NaN.
  - unfold loop_body. special_values.
    eexists. split; [ reflexivity | ].
    unfold converged. cbn [λ λPrev]. special_values. split; reflexivity.
  - assert (Hs : sin l = NaN) by (destruct l; [ | | | discriminate ]; reflexivity).
    assert (Hc : cos l = NaN) by (destruct l; [ | | | discriminate ]; reflexivity).
    unfold loop_body. rewrite Hs, Hc. special_values.
    eexists. split; [ reflexivity | ].
    unfold converged. cbn [λ λPrev]. special_values. split; reflexivity.
Qed.

Lemma nth_λ_not_finite (Δλ sinU1 cosU1 sinU2 cosU2 : xdouble) (k : nat) :
  forall l : xdouble,
    sinU1 = NaN /\ cosU1 = NaN \/ sinU2 = NaN /\ cosU2 = NaN \/
    not_finite l = true ->
    exists l' : xdouble, nth_λ Δλ sinU1 cosU1 sinU2 cosU2 k l = Some l'.
Proof.
  induction k as [|k IH]; intros l Hl.
  - exists l. reflexivity.
  - cbn [nth_λ].
    destruct (body_not_finite Δλ sinU1 cosU1 sinU2 cosU2 l Hl)
      as (vs & -> & Hλ & ->).
    apply IH. right. right. rewrite Hλ. reflexivity.
Qed.

(** A call of Vincenty whose first body execution reads a NaN reduced
    latitude or a [λ] that is not finite uses its 100 iterations and
    returns the sentinel. *)
Lemma Vincenty_poisoned (lat1 lon1 lat2 lon2 : xdouble) (unit : Units) :
  sin (U_of lat1) = NaN /\ cos (U_of lat1) = NaN \/
  sin (U_of lat2) = NaN /\ cos (U_of lat2) = NaN \/
  not_finite (Δλ_of lon1 lon2) = true ->
  Vincenty lat1 lon1 lat2 lon2 unit = lit (-1) /\
  exists vs : loop_vars,
    Vincenty_loop 100 lat1 lon1 lat2 lon2 = Some (LoopEnd 0 vs).
Proof.
  intros Hp.
  destruct (nth_λ_not_finite (Δλ_of lon1 lon2) _ _ _ _ 100 _ Hp) as [l Hl].
  split.
  - apply (proj1 (Vincenty_exhausted_or_converged lat1 lon1 lat2 lon2 unit) l).
    exact Hl.
  - rewrite Vincenty_loop_eq.
    apply (do_while_exhaust _ _ _ _ _ 99 _ _ Hl).
Qed.

Lemma Vincenty_not_finite (lat1 lon1 lat2 lon2 : xdouble) (unit : Units) :
  not_finite lat1 || not_finite lon1 || not_finite lat2 || not_finite lon2
  = true ->
  Vincenty lat1 lon1 lat2 lon2 unit = lit (-1).
Proof.
  intros Hn. apply Vincenty_poisoned.
  destruct (not_finite lat1) eqn:H1.
  { left. rewrite (U_of_not_finite _ H1). split; reflexivity. }
  destruct (not_finite lat2) eqn:H2.
  { right. left. rewrite (U_of_not_finite _ H2). split; reflexivity. }
  right. right. apply Δλ_of_not_finite.
  cbn [orb] in Hn. rewrite Bool.orb_false_r in Hn. exact Hn.
Qed.

(** X6.  When one of the four inputs of Vincenty is NaN or an infinity,
    every convergence test fails, the loop uses its 100 iterations, and
    the call returns the sentinel -1, for both units. *)
Theorem Vincenty_not_finite_sentinel (lat1 lon1 lat2 lon2 : xdouble)
    (unit : Units) :
  not_finite lat1 || not_finite lon1 || not_finite lat2 || not_finite lon2
  = true ->
  Vincenty lat1 lon1 lat2 lon2 unit = lit (-1) /\
  exists vs : loop_vars,
    Vincenty_loop 100 lat1 lon1 lat2 lon2 = Some (LoopEnd 0 vs).
Proof.
  intros Hn. apply Vincenty_poisoned.
  destruct (not_finite lat1) eqn:H1.
  { left. rewrite (U_of_not_finite _ H1). split; reflexivity. }
  destruct (not_finite lat2) eqn:H2.
  { right. left. rewrite (U_of_not_finite _ H2). split; reflexivity. }
  right. right. apply Δλ_of_not_finite.
  cbn [orb] in Hn. rewrite Bool.orb_false_r in Hn. exact Hn.
Qed.

Lemma Vincenty_not_finite_sentinel_witness :
  Vincenty (Fin 0) (Fin 0) (Fin 0) PInf SI = lit (-1) /\
  exists vs : loop_vars,
    Vincenty_loop 100 (Fin 0) (Fin 0) (Fin 0) PInf = Some (LoopEnd 0 vs).
Proof.
  apply (Vincenty_not_finite_sentinel (Fin 0) (Fin 0) (Fin 0) PInf SI).
  reflexivity.
Defined.

End EveryInput.

(** ** Exact real arithmetic: Vincenty on a meridian and on the equator *)

Section MeridianAndEquator.

Local Open Scope R_scope.

Local Abbreviation rsin := Rtrigo_def.sin.
Local Abbreviation rcos := Rtrigo_def.cos.

Lemma Δλ_of_same (lon : R) : Δλ_of lon lon = 0.
Proof. unfold Δλ_of. cbn [dsub dmul RealArith]. ring. Qed.

Lemma Vincenty_swap (lat1 lon1 lat2 lon2 : R) (unit : Units) :
  Vincenty lat2 lon2 lat1 lon1 unit = Vincenty lat1 lon1 lat2 lon2 unit.
Proof. unfold Vincenty. rewrite Vincenty_sym. reflexivity. Qed.

(** X7.  Over the reals, for two points of one meridian (equal
    longitudes) the first execution of the loop body decides: it returns
    0, or it meets the convergence test and the call returns a positive
    distance.  Such a call never returns the sentinel. *)
Theorem Vincenty_meridian (lat1 lat2 lon : R) (unit : Units) :
  (Vincenty_loop 1 lat1 lon lat2 lon = Some (LoopReturn 0) /\
   Vincenty lat1 lon lat2 lon unit = 0)
  \/
  (exists vs : loop_vars,
     Vincenty_loop 1 lat1 lon lat2 lon = Some (LoopBreak 100 vs) /\
     Vincenty lat1 lon lat2 lon unit
     = (b * A vs * (σ vs - Δσ vs) / lit 1000.0 * unit_factor unit)%D /\
     0 < Vincenty lat1 lon lat2 lon unit).
Proof.
  pose proof (Vincenty_loop_eq 1 lat1 lon lat2 lon) as Hrun.
  rewrite Δλ_of_same, do_while_S in Hrun.
  destruct (loop_body 0 (sin (U_of lat1)) (cos (U_of lat1))
              (sin (U_of lat2)) (cos (U_of lat2)) 0) as [v|vs] eqn:Hb.
  - left.
    destruct (body_Returned _ _ _ _ _ _ _ Hb) as [_ ->].
    rewrite lit_zero_R in Hrun. split; [ exact Hrun | ].
    rewrite (Vincenty_exit 1 _ _ _ _ unit _ Hrun). reflexivity.
  - right. exists vs.
    rewrite (body_meridian _ _ _ _ _ Hb) in Hrun.
    split; [ exact Hrun | ].
    assert (Hret : Vincenty lat1 lon lat2 lon unit
             = (b * A vs * (σ vs - Δσ vs) / lit 1000.0 * unit_factor unit)%D).
    { rewrite (Vincenty_exit 1 _ _ _ _ unit _ Hrun). reflexivity. }
    split; [ exact Hret | ].
    rewrite Hret.
    apply (distance_positive 0 _ _ _ _ 0 vs unit
             (sin2_cos2 _) (sin2_cos2 _) Hb).
Qed.

(** On the equator, east of the first point and short of the antipode,
    a body execution finds [σ = λ], [A = 1] and no correction. *)
Lemma equator_east_vars (Δλ l : R) (vs : loop_vars) :
  0 < l < PI ->
  loop_body Δλ 0 1 0 1 l = Tested vs ->
  λPrev vs = l /\ λ vs = Δλ + f * l /\
  σ vs = l /\ A vs = 1 /\ Δσ vs = 0.
Proof.
  intros Hl Hb.
  destruct (step_east Δλ l Hl) as (vs' & Hb' & Hprev & Hλ).
  rewrite Hb in Hb'. injection Hb' as <-.
  split; [ exact Hprev | ]. split; [ exact Hλ | ].
  assert (Hs : 0 < rsin l) by (apply sin_gt_0; lra).
  destruct (body_Tested_R _ _ _ _ _ _ _ Hb)
    as (Hsσ & Hσ0 & Hcσ & Hσ & Hsα & Hq & _ & Hu & HA & HB & HΔ & _).
  assert (Hsσ' : sinσ vs = rsin l).
  { rewrite Hsσ.
    replace (1 * rsin l * (1 * rsin l) +
             (1 * 0 - 0 * 1 * rcos l) * (1 * 0 - 0 * 1 * rcos l))
      with (Rsqr (rsin l)) by (unfold Rsqr; ring).
    apply sqrt_Rsqr. lra. }
  assert (Hcσ' : cosσ vs = rcos l) by (rewrite Hcσ; ring).
  assert (Hsα' : sinα vs = 1) by (rewrite Hsα, Hsσ'; field; lra).
  assert (Hq0 : cos2α vs = 0) by (rewrite Hq, Hsα'; ring).
  assert (Hu0 : u2 vs = 0) by (rewrite Hu, Hq0; unfold Rdiv; ring).
  assert (HB0 : B vs = 0) by (rewrite HB, Hu0; unfold Rdiv; ring).
  split; [ rewrite Hσ, Hsσ', Hcσ'; apply Ratan2_sin_cos; exact Hl | ].
  split; [ rewrite HA, Hu0; unfold Rdiv; ring | ].
  rewrite HΔ, HB0. ring.
Qed.

(** The flattening is a little more than 1/299. *)
Lemma f_bounds : 1 / 299 < f (D:=R) < 1 / 298.
Proof. rewrite f_R. split; lra. Qed.

(** The convergence test, for a [λ] that did not decrease. *)
Lemma converged_iff (vs : loop_vars) :
  0 <= λ vs - λPrev vs ->
  (converged vs = true <-> λ vs - λPrev vs < / 1000000000000).
Proof.
  intros H. unfold converged. rewrite ε_R.
  cbn [dsub dltb fabs RealArith]. rewrite Rabs_pos_eq by exact H.
  unfold Rlt_bool.
  destruct (Rlt_dec _ _); split; intros; first [ lra | trivial | discriminate ].
Qed.

(** East of the first point and short of the antipode, [λ] grows towards
    [Δλ/(1 − f)], the distance to it shrinking by the factor [f] with each
    body execution; the loop leaves by [break] once that distance is
    below ε/(1 − f). *)
Lemma equator_run (Δλ : R) (k : nat) :
  0 < Δλ -> Δλ / (1 - f) < PI ->
  forall (iterLimit : Z) (l : R),
    (Z.of_nat k < iterLimit)%Z ->
    Δλ <= l <= Δλ / (1 - f) ->
    (Δλ - (1 - f) * l) * f ^ k < / 1000000000000 ->
    exists (iterLimit' : Z) (vs : loop_vars),
      do_while Δλ 0 1 0 1 (S k) iterLimit l
      = Some (LoopBreak iterLimit' vs) /\
      (0 < iterLimit')%Z /\
      σ vs = λPrev vs /\ A vs = 1 /\ Δσ vs = 0 /\
      Δλ <= λPrev vs <= Δλ / (1 - f) /\
      Δλ - (1 - f) * λPrev vs < / 1000000000000.
Proof.
  intros HΔ Hstar. pose proof f_bounds as [Hf0 Hf1].
  assert (Hfix : (1 - f) * (Δλ / (1 - f)) = Δλ) by (field; lra).
  induction k as [|k IH]; intros iterLimit l Hlim Hl Hgap.
  - assert (Hl' : 0 < l < PI) by lra.
    destruct (step_east Δλ l Hl') as (vs & Hb & _).
    destruct (equator_east_vars Δλ l vs Hl' Hb)
      as (Hprev & Hλ & Hσ & HA & HΔσ).
    assert (Hd : λ vs - λPrev vs = Δλ - (1 - f) * l)
      by (rewrite Hprev, Hλ; ring).
    assert (Hinc : 0 <= λ vs - λPrev vs).
    { rewrite Hd. assert ((1 - f) * l <= (1 - f) * (Δλ / (1 - f)))
        by (apply Rmult_le_compat_l; lra). lra. }
    rewrite pow_O, Rmult_1_r in Hgap.
    exists iterLimit, vs. rewrite do_while_S, Hb.
    rewrite (proj2 (converged_iff vs Hinc)) by (rewrite Hd; exact Hgap).
    rewrite Hprev. repeat split; try lra; try lia; try assumption.
  - assert (Hl' : 0 < l < PI) by lra.
    destruct (step_east Δλ l Hl') as (vs & Hb & _).
    destruct (equator_east_vars Δλ l vs Hl' Hb)
      as (Hprev & Hλ & Hσ & HA & HΔσ).
    assert (Hd : λ vs - λPrev vs = Δλ - (1 - f) * l)
      by (rewrite Hprev, Hλ; ring).
    assert (Hle : (1 - f) * l <= Δλ).
    { assert ((1 - f) * l <= (1 - f) * (Δλ / (1 - f)))
        by (apply Rmult_le_compat_l; lra). lra. }
    assert (Hinc : 0 <= λ vs - λPrev vs) by (rewrite Hd; lra).
    rewrite do_while_S, Hb.
    destruct (converged vs) eqn:Hc.
    + exists iterLimit, vs.
      apply (converged_iff vs Hinc) in Hc. rewrite Hd in Hc.
      rewrite Hprev. repeat split; try lra; try lia; try assumption.
    + rewrite (proj2 (Z.gtb_lt (iterLimit - 1) 0)) by lia.
      apply IH.
      * lia.
      * rewrite Hλ. split.
        -- assert (0 <= f * l) by (apply Rmult_le_pos; lra). lra.
        -- assert (f * l <= f * (Δλ / (1 - f)))
             by (apply Rmult_le_compat_l; lra).
           assert (Δλ / (1 - f) = Δλ + f * (Δλ / (1 - f))) by (field; lra).
           lra.
      * rewrite Hλ.
        replace ((Δλ - (1 - f) * (Δλ + f * l)) * f ^ k)
          with ((Δλ - (1 - f) * l) * f ^ S k) by (simpl; ring).
        exact Hgap.
Qed.

(** Six body executions are enough. *)
Lemma f_pow_small (x : R) :
  0 <= x <= 4 -> f * x * f ^ 5 < / 1000000000000.
Proof.
  intros Hx. pose proof f_bounds as [Hf0 Hf1].
  assert (H2 : 0 < f * f < 1 / 88804) by nra.
  assert (H3 : 0 < f * (f * f) < 1 / 26463592) by nra.
  assert (H6 : 0 < f * (f * f) * (f * (f * f)) < 1 / 700000000000000).
  { split; [ nra | ].
    assert (f * (f * f) * (f * (f * f)) <= 1 / 26463592 * (1 / 26463592)).
    { apply Rmult_le_compat; lra. }
    lra. }
  replace (f * x * f ^ 5) with (x * (f * (f * f) * (f * (f * f))))
    by (simpl; ring).
  assert (x * (f * (f * f) * (f * (f * f)))
          <= 4 * (f * (f * f) * (f * (f * f)))).
  { apply Rmult_le_compat_r; lra. }
  lra.
Qed.

(** Vincenty on the equator, eastwards and short of the antipode. *)
Lemma Vincenty_equator_east (lon1 lon2 : R) :
  0 < lon2 - lon1 <= 179.396 ->
  exists l : R,
    (forall unit : Units,
       Vincenty 0 lon1 0 lon2 unit = b * l / 1000 * unit_factor unit) /\
    0 <= a * ((lon2 - lon1) * (PI / 180)) - b * l
      < 6378137 / 1000000000000.
Proof.
  intros HΔ. pose proof f_bounds as [Hf0 Hf1]. pose proof PI_decimals as Hpi.
  set (Δλ := (lon2 - lon1) * (PI / 180)).
  assert (HΔλ : Δλ_of lon1 lon2 = Δλ).
  { unfold Δλ_of, Δλ. rewrite toRad_R. reflexivity. }
  assert (H0 : 0 < Δλ) by (unfold Δλ; nra).
  assert (Hstar : Δλ / (1 - f) < PI).
  { apply (Rmult_lt_reg_r (1 - f)); [ lra | ].
    unfold Rdiv. rewrite Rmult_assoc, Rinv_l, Rmult_1_r by lra.
    assert (Δλ <= 179.396 * (PI / 180))
      by (unfold Δλ; apply Rmult_le_compat_r; lra).
    rewrite f_R. lra. }
  assert (Hfix : (1 - f) * (Δλ / (1 - f)) = Δλ) by (field; lra).
  assert (H4 : 0 <= Δλ <= 4).
  { assert (Δλ <= 179.396 * (PI / 180))
      by (unfold Δλ; apply Rmult_le_compat_r; lra).
    lra. }
  destruct (equator_run Δλ 5 H0 Hstar 100 Δλ) as
    (il & vs & Hrun & Hil & Hσ & HA & HΔσ & Hrange & Hgap).
  - lia.
  - split; [ lra | ].
    apply (Rmult_le_reg_l (1 - f)); [ lra | ]. rewrite Hfix.
    assert (0 <= f * Δλ) by (apply Rmult_le_pos; lra). lra.
  - replace ((Δλ - (1 - f) * Δλ) * f ^ 5) with (f * Δλ * f ^ 5) by ring.
    apply f_pow_small. exact H4.
  - exists (λPrev vs). split.
    + intros unit.
      assert (Hloop : Vincenty_loop 6 0 lon1 0 lon2 = Some (LoopBreak il vs)).
      { rewrite Vincenty_loop_eq, HΔλ, U_of_equator.
        cbn [sin cos RealArith]. rewrite sin_0, cos_0. exact Hrun. }
      rewrite (Vincenty_exit 6 _ _ _ _ unit _ Hloop).
      cbn [after_loop]. rewrite (proj2 (Z.eqb_neq il 0)) by lia.
      cbn [try_catch_all dsub dmul ddiv RealArith].
      rewrite HA, Hσ, HΔσ. real_lits. field.
    + unfold b. cbn [dsub dmul RealArith]. rewrite lit_one_R, a_R.
      fold Δλ.
      replace (6378137 * Δλ - 6378137 * (1 - f) * λPrev vs)
        with (6378137 * (Δλ - (1 - f) * λPrev vs)) by ring.
      assert ((1 - f) * λPrev vs <= (1 - f) * (Δλ / (1 - f)))
        by (apply Rmult_le_compat_l; lra).
      lra.
Qed.

(** X8.  Over the reals, for two points of the equator whose longitudes
    differ by at most 179.396 degrees (and differ), Vincenty converges
    within six iterations and returns the length of the equatorial arc
    between them, [6378.137 · Δλ] kilometres for [Δλ] in radians, short by
    less than 7·10⁻⁹ km. *)
Theorem Vincenty_equator_arc (lon1 lon2 : R) :
  0 < Rabs (lon2 - lon1) <= 179.396 ->
  let arc := 6378.137 * (Rabs (lon2 - lon1) * (PI / 180)) in
  arc - 7 / 1000000000 < Vincenty 0 lon1 0 lon2 SI <= arc /\
  Vincenty 0 lon1 0 lon2 US = Vincenty 0 lon1 0 lon2 SI / 1.609344.
Proof.
  intros HΔ arc.
  assert (Heast : forall x y : R, 0 < y - x <= 179.396 ->
            6378.137 * ((y - x) * (PI / 180)) - 7 / 1000000000
            < Vincenty 0 x 0 y SI <= 6378.137 * ((y - x) * (PI / 180)) /\
            Vincenty 0 x 0 y US = Vincenty 0 x 0 y SI / 1.609344).
  { intros x y Hxy.
    destruct (Vincenty_equator_east x y Hxy) as (l & Hret & Hl).
    rewrite a_R in Hl. rewrite !Hret, !unit_factor_R.
    split; lra. }
  unfold arc. destruct (Rcase_abs (lon2 - lon1)) as [Hneg|Hpos].
  - rewrite (Rabs_left _ Hneg) in *.
    rewrite <- !(Vincenty_swap 0 lon1 0 lon2).
    replace (- (lon2 - lon1)) with (lon1 - lon2) in * by ring.
    apply Heast. exact HΔ.
  - rewrite (Rabs_right _ Hpos) in *. apply Heast. exact HΔ.
Qed.

Lemma Vincenty_equator_arc_witness :
  6378.137 * (Rabs (90 - 0) * (PI / 180)) - 7 / 1000000000
  < Vincenty 0 0 0 90 SI <= 6378.137 * (Rabs (90 - 0) * (PI / 180)) /\
  Vincenty 0 0 0 90 US = Vincenty 0 0 0 90 SI / 1.609344.
Proof.
  apply (Vincenty_equator_arc 0 90).
  rewrite Rabs_pos_eq; lra.
Defined.

(** Close below the antipode, a body execution started in one of the two
    intervals fails the convergence test and leaves [λ] in the other. *)
Lemma alternating_about_step (Δλ l : R) :
  179.41 * (PI / 180) <= Δλ < PI ->
  alternating_about Δλ l ->
  exists vs : loop_vars,
    loop_body Δλ 0 1 0 1 l = Tested vs /\
    converged vs = false /\ alternating_about Δλ (λ vs).
Proof.
  pose proof PI_decimals as Hpi.
  unfold alternating_about. rewrite f_R. intros HΔ [Hl|Hl].
  - destruct (step_east Δλ l) as (vs & Hb & Hprev & Hλ); [ lra | ].
    exists vs. split; [ exact Hb | ].
    rewrite f_R in Hλ.
    split.
    + apply not_converged. rewrite Hprev, Hλ.
      rewrite Rabs_pos_eq; lra.
    + right. rewrite Hλ. lra.
  - destruct (step_west Δλ l) as (vs & Hb & Hprev & Hλ); [ lra | ].
    exists vs. split; [ exact Hb | ].
    rewrite f_R in Hλ.
    split.
    + apply not_converged. rewrite Hprev, Hλ.
      rewrite Rabs_left; lra.
    + left. rewrite Hλ. lra.
Qed.

Lemma alternating_about_forever (Δλ : R) (k : nat) :
  179.41 * (PI / 180) <= Δλ < PI ->
  forall l : R, alternating_about Δλ l ->
    exists l' : R, nth_λ Δλ 0 1 0 1 k l = Some l'.
Proof.
  intros HΔ. induction k as [|k IH]; intros l Hl.
  - exists l. reflexivity.
  - cbn [nth_λ].
    destruct (alternating_about_step Δλ l HΔ Hl) as (vs & -> & -> & Hl').
    apply IH. exact Hl'.
Qed.

Lemma Vincenty_equator_eastwards_near_antipode (lon1 lon2 : R) (unit : Units) :
  179.41 <= lon2 - lon1 < 180 ->
  Vincenty 0 lon1 0 lon2 unit = -1.
Proof.
  intros HΔ. pose proof PI_decimals as Hpi.
  set (Δλ := (lon2 - lon1) * (PI / 180)).
  assert (HΔλ : Δλ_of lon1 lon2 = Δλ).
  { unfold Δλ_of, Δλ. rewrite toRad_R. reflexivity. }
  assert (Hnear : 179.41 * (PI / 180) <= Δλ < PI).
  { unfold Δλ. split.
    - apply Rmult_le_compat_r; lra.
    - replace PI with (180 * (PI / 180)) at 2 by field.
      apply Rmult_lt_compat_r; lra. }
  destruct (alternating_about_forever Δλ 100 Hnear Δλ) as [l Hl].
  { left. rewrite f_R. lra. }
  rewrite <- sentinel_R.
  apply (proj1 (Vincenty_exhausted_or_converged 0 lon1 0 lon2 unit) l).
  rewrite HΔλ, U_of_equator. cbn [sin cos RealArith].
  rewrite sin_0, cos_0. exact Hl.
Qed.

(** X9.  Over the reals, for two points of the equator whose longitudes
    differ by at least 179.41 and less than 180 degrees, [λ] alternates
    between the two sides of π without ever meeting the convergence
    test: Vincenty uses its 100 iterations and returns the sentinel -1,
    for both units. *)
Theorem Vincenty_equator_near_antipode (lon1 lon2 : R) (unit : Units) :
  179.41 <= Rabs (lon2 - lon1) < 180 ->
  Vincenty 0 lon1 0 lon2 unit = -1.
Proof.
  intros HΔ. destruct (Rcase_abs (lon2 - lon1)) as [Hneg|Hpos].
  - rewrite (Rabs_left _ Hneg) in HΔ.
    rewrite <- Vincenty_swap.
    apply Vincenty_equator_eastwards_near_antipode. lra.
  - rewrite (Rabs_right _ Hpos) in HΔ.
    apply Vincenty_equator_eastwards_near_antipode. exact HΔ.
Qed.

Lemma Vincenty_equator_near_antipode_witness :
  Vincenty 0 (-90) 0 89.5 US = -1.
Proof.
  apply (Vincenty_equator_near_antipode (-90) 89.5 US).
  rewrite Rabs_pos_eq; lra.
Defined.

End MeridianAndEquator.

(** ** Exact real arithmetic: what the loop of Vincenty keeps *)

Section LoopInvariants.

Local Open Scope R_scope.

Local Abbreviation rsin := Rtrigo_def.sin.
Local Abbreviation rcos := Rtrigo_def.cos.

(** On the upper half of the unit circle [atan2] is the arc cosine of
    the abscissa. *)
Lemma Ratan2_unit (y x : R) :
  0 < y -> x * x + y * y = 1 ->
  Ratan2 y x = Ratan.acos x /\ 0 < Ratan.acos x < PI.
Proof.
  intros Hy Hu.
  assert (Hx : -1 < x < 1) by (split; nra).
  pose proof (acos_bound_lt x Hx) as Ht.
  split; [ | exact Ht ].
  assert (Hc : rcos (Ratan.acos x) = x) by (apply cos_acos; lra).
  assert (Hs : rsin (Ratan.acos x) = y).
  { rewrite sin_acos by lra.
    replace (1 - x²) with (Rsqr y) by (unfold Rsqr; lra).
    apply sqrt_Rsqr. lra. }
  pose proof (Ratan2_sin_cos (Ratan.acos x) Ht) as E.
  rewrite Hs, Hc in E. exact E.
Qed.

(** The correction Δσ is at most six thousandths of sin σ in absolute
    value. *)
Lemma Δσ_tight (sσ cσ m B : R) :
  0 < sσ <= 1 -> -1 <= cσ <= 1 -> 0 <= B <= 7 / 4000 ->
  - (21 / 4000) <= B * m <= 21 / 4000 ->
  - (6 / 1000 * sσ) <=
  B * sσ * (m + B / 4 * (cσ * (-1 + 2 * (m * m)) -
                         B / 6 * m * (-3 + 4 * sσ * sσ) *
                         (-3 + 4 * (m * m))))
  <= 6 / 1000 * sσ.
Proof.
  intros Hs Hc HB Hw.
  set (w := B * m) in *.
  replace (B * sσ * (m + B / 4 * (cσ * (-1 + 2 * (m * m)) -
             B / 6 * m * (-3 + 4 * sσ * sσ) * (-3 + 4 * (m * m)))))
    with (sσ * (w + / 4 * (cσ * (2 * (w * w) - B * B)) -
                / 24 * (w * ((-3 + 4 * sσ * sσ) *
                             (4 * (w * w) - 3 * (B * B))))))
    by (unfold w; field).
  clearbody w.
  set (X := 2 * (w * w) - B * B).
  set (Y := -3 + 4 * sσ * sσ).
  set (Z := 4 * (w * w) - 3 * (B * B)).
  assert (Hww : 0 <= w * w <= 1 / 10000).
  { pose proof (product_bound w w (21 / 4000) (21 / 4000) Hw Hw).
    pose proof (Rle_0_sqr w) as H0. unfold Rsqr in H0. lra. }
  assert (HBB : 0 <= B * B <= 1 / 10000).
  { assert (HB' : - (7 / 4000) <= B <= 7 / 4000) by lra.
    pose proof (product_bound B B (7 / 4000) (7 / 4000) HB' HB').
    pose proof (Rle_0_sqr B) as H0. unfold Rsqr in H0. lra. }
  assert (HX : - (1 / 1000) <= X <= 1 / 1000) by (unfold X; lra).
  assert (Hss : 0 <= sσ * sσ <= 1).
  { assert (Hs' : - 1 <= sσ <= 1) by lra.
    pose proof (product_bound sσ sσ 1 1 Hs' Hs').
    pose proof (Rle_0_sqr sσ) as H0. unfold Rsqr in H0. lra. }
  assert (HY : - 3 <= Y <= 3) by (unfold Y; lra).
  assert (HZ : - (1 / 1000) <= Z <= 1 / 1000) by (unfold Z; lra).
  pose proof (product_bound cσ X 1 (1 / 1000) Hc HX) as HcX.
  pose proof (product_bound Y Z 3 (1 / 1000) HY HZ) as HYZ.
  pose proof (product_bound w (Y * Z) (21 / 4000) (3 * (1 / 1000)) Hw HYZ)
    as HwYZ.
  set (G := w + / 4 * (cσ * X) - / 24 * (w * (Y * Z))).
  assert (HG : - (6 / 1000) <= G <= 6 / 1000) by (unfold G; lra).
  clearbody G.
  assert (Hs' : - sσ <= sσ <= sσ) by lra.
  pose proof (product_bound sσ G sσ (6 / 1000) Hs' HG). lra.
Qed.

(** What a body execution that reaches the convergence test leaves in
    the loop variables, when the reduced latitudes are on the unit
    circle. *)
Lemma body_invariants (Δλ s1 c1 s2 c2 l : R) (vs : loop_vars) :
  s1 * s1 + c1 * c1 = 1 -> s2 * s2 + c2 * c2 = 1 ->
  loop_body Δλ s1 c1 s2 c2 l = Tested vs ->
  0 < sinσ vs <= 1 /\
  sinσ vs * sinσ vs + cosσ vs * cosσ vs = 1 /\
  0 < σ vs < PI /\ rsin (σ vs) = sinσ vs /\ rcos (σ vs) = cosσ vs /\
  -1 <= sinα vs <= 1 /\
  0 <= cos2α vs <= 1 /\
  0 <= u2 vs < 7 / 1000 /\
  1 <= A vs <= 1 + 7 / 4000 /\
  0 <= B vs <= 7 / 4000 /\
  - (6 / 1000 * sinσ vs) <= Δσ vs <= 6 / 1000 * sinσ vs.
Proof.
  intros H1 H2 Hb.
  destruct (body_Tested_R _ _ _ _ _ _ _ Hb)
    as (Hsσ & Hσ0 & Hcσ & Hσ & Hsα & Hq & Hm & Hu & HA & HB & HΔ & _).
  pose proof (sin2_cos2 l) as Hl. unfold Rsqr in Hl.
  set (sl := rsin l) in *. set (cl := rcos l) in *. clearbody sl cl.
  pose proof (sinσ_cosσ_unit _ _ _ _ _ _ H1 H2 Hl) as Hunit.
  rewrite <- Hcσ in Hunit.
  set (rad := c2 * sl * (c2 * sl) +
              (c1 * s2 - s1 * c2 * cl) * (c1 * s2 - s1 * c2 * cl)) in *.
  assert (Hrad : 0 <= rad).
  { unfold rad. pose proof (Rle_0_sqr (c2 * sl)) as Ha.
    pose proof (Rle_0_sqr (c1 * s2 - s1 * c2 * cl)) as Hb'.
    unfold Rsqr in *. lra. }
  assert (Hsq : sinσ vs * sinσ vs = rad).
  { rewrite Hsσ. apply sqrt_sqrt. exact Hrad. }
  assert (Hpos : 0 < sinσ vs).
  { pose proof (sqrt_pos rad). rewrite <- Hsσ in *. lra. }
  set (sσ := sinσ vs) in *. set (cσ := cosσ vs) in *.
  assert (Hcircle : sσ * sσ + cσ * cσ = 1) by lra.
  assert (Hsσ1 : sσ <= 1) by nra.
  assert (Hcσ1 : -1 <= cσ <= 1) by (split; nra).
  destruct (Ratan2_unit sσ cσ Hpos) as [Hacos Hrange]; [ lra | ].
  rewrite <- Hacos, <- Hσ in Hrange.
  assert (Hcosσ : rcos (σ vs) = cσ).
  { rewrite Hσ, Hacos. apply cos_acos. lra. }
  assert (Hsinσ : rsin (σ vs) = sσ).
  { assert (Hp : 0 < rsin (σ vs)) by (apply sin_gt_0; lra).
    pose proof (sin2_cos2 (σ vs)) as Hsc. unfold Rsqr in Hsc.
    rewrite Hcosσ in Hsc.
    assert (E : (rsin (σ vs) - sσ) * (rsin (σ vs) + sσ) = 0) by lra.
    apply Rmult_integral in E. destruct E; lra. }
  (* the azimuth *)
  set (sα := sinα vs) in *.
  assert (Hsα' : sα * sσ = c1 * c2 * sl).
  { rewrite Hsα. field. lra. }
  assert (Hc1 : c1 * c1 <= 1) by nra.
  assert (Hsα2 : sα * sα <= 1).
  { assert (Hle : (c1 * c2 * sl) * (c1 * c2 * sl) <= sσ * sσ).
    { rewrite Hsq. unfold rad.
      pose proof (Rle_0_sqr (c1 * s2 - s1 * c2 * cl)) as Ha.
      pose proof (Rle_0_sqr (c2 * sl)) as Hb'. unfold Rsqr in *.
      assert (0 <= (1 - c1 * c1) * (c2 * sl * (c2 * sl)))
        by (apply Rmult_le_pos; lra).
      lra. }
    rewrite <- Hsα' in Hle.
    assert (Hss : 0 < sσ * sσ) by nra.
    assert (Hmul : (sα * sα - 1) * (sσ * sσ) <= 0) by lra.
    destruct (Rle_dec (sα * sα) 1) as [|Hn]; [ assumption | ].
    exfalso. assert (0 < (sα * sα - 1) * (sσ * sσ)).
    { apply Rmult_lt_0_compat; lra. }
    lra. }
  set (q := cos2α vs) in *.
  assert (Hq01 : 0 <= q <= 1).
  { pose proof (Rle_0_sqr sα) as Ha. unfold Rsqr in Ha. lra. }
  pose proof eccentricity_bounds as [HE0 HE1].
  set (E := (a * a - b * b) / (b * b)) in *.
  set (u := u2 vs) in *.
  assert (HuE : u = q * E) by (rewrite Hu; unfold E, Rdiv; ring).
  assert (Hu01 : 0 <= u < 7 / 1000).
  { rewrite HuE. split; [ apply Rmult_le_pos; lra | ].
    assert (q * E <= 1 * E) by (apply Rmult_le_compat_r; lra). lra. }
  assert (Hu01' : 0 <= u <= 7 / 1000) by lra.
  destruct (series_bounds u Hu01') as [HA1 Hg].
  assert (HA2 : A vs <= 1 + 7 / 4000).
  { rewrite HA.
    assert (Hser : u * (-768 + u * (320 - 175 * u)) <= 0) by nra.
    assert (u / 16384 * (4096 + u * (-768 + u * (320 - 175 * u)))
            <= u / 16384 * 4096)
      by (apply Rmult_le_compat_l; lra).
    lra. }
  set (g := 256 + u * (-128 + u * (74 - 47 * u))) in *.
  set (k := E / 1024 * g).
  assert (Hk : 0 <= k <= 7 / 4000).
  { unfold k. split.
    - apply Rmult_le_pos; lra.
    - assert (E / 1024 * g <= E / 1024 * 256)
        by (apply Rmult_le_compat_l; lra).
      lra. }
  assert (HBk : B vs = q * k).
  { rewrite HB. fold u g. rewrite HuE. unfold k. field. }
  assert (HB01 : 0 <= B vs <= 7 / 4000).
  { rewrite HBk. split; [ apply Rmult_le_pos; lra | ].
    assert (q * k <= 1 * k) by (apply Rmult_le_compat_r; lra). lra. }
  assert (HΔσ : - (6 / 1000 * sσ) <= Δσ vs <= 6 / 1000 * sσ).
  { rewrite HΔ. fold sσ cσ.
    unfold Req_bool in Hm. destruct (Req_dec_T q 0) as [Hq0|Hq0].
    - assert (HB0 : B vs = 0) by (rewrite HBk, Hq0; ring).
      rewrite HB0. lra.
    - pose proof (unit_component _ _ H1) as Hs1.
      pose proof (unit_component _ _ H2) as Hs2.
      pose proof (product_bound s1 s2 1 1 Hs1 Hs2) as Hs12.
      assert (Hw : B vs * cos2σM vs = B vs * cσ - 2 * (s1 * s2) * k).
      { rewrite Hm, HBk. field. exact Hq0. }
      assert (HBc : - (7 / 4000) <= B vs * cσ <= 7 / 4000).
      { assert (HB' : - (7 / 4000) <= B vs <= 7 / 4000) by lra.
        pose proof (product_bound (B vs) cσ (7 / 4000) 1 HB' Hcσ1). lra. }
      assert (Hsk : - (7 / 4000) <= (s1 * s2) * k <= 7 / 4000).
      { assert (Hk' : - (7 / 4000) <= k <= 7 / 4000) by lra.
        pose proof (product_bound (s1 * s2) k (1 * 1) (7 / 4000) Hs12 Hk').
        lra. }
      assert (Hw' : - (21 / 4000) <= B vs * cos2σM vs <= 21 / 4000)
        by (rewrite Hw; lra).
      apply (Δσ_tight sσ cσ (cos2σM vs) (B vs)
               (conj Hpos Hsσ1) Hcσ1 HB01 Hw'). }
  assert (Hsα1 : -1 <= sα <= 1) by (split; nra).
  rewrite HA in HA2 |- *.
  repeat split; try lra; try assumption.
Qed.

(** X10.  Over the reals every execution of the loop body of Vincenty
    that reaches the convergence test leaves the variables in their
    ranges: [sin σ] in (0, 1], [σ] in (0, π) with [sin σ] and [cos σ] for
    sine and cosine, [sin α] in [-1, 1], [cos²α] in [0, 1], [u²] below
    0.007, [A] between 1 and 1.00175, [B] between 0 and 0.00175, and the
    correction Δσ at most 0.006·sin σ in absolute value. *)
Theorem Vincenty_loop_invariants (lat1 lon1 lat2 lon2 l : R)
    (vs : loop_vars) :
  loop_body (Δλ_of lon1 lon2) (sin (U_of lat1)) (cos (U_of lat1))
            (sin (U_of lat2)) (cos (U_of lat2)) l = Tested vs ->
  0 < sinσ vs <= 1 /\
  sinσ vs * sinσ vs + cosσ vs * cosσ vs = 1 /\
  0 < σ vs < PI /\ rsin (σ vs) = sinσ vs /\ rcos (σ vs) = cosσ vs /\
  -1 <= sinα vs <= 1 /\
  0 <= cos2α vs <= 1 /\
  0 <= u2 vs < 7 / 1000 /\
  1 <= A vs <= 1 + 7 / 4000 /\
  0 <= B vs <= 7 / 4000 /\
  - (6 / 1000 * sinσ vs) <= Δσ vs <= 6 / 1000 * sinσ vs.
Proof.
  apply body_invariants; apply sin2_cos2.
Qed.

Lemma Vincenty_loop_invariants_witness :
  exists vs : loop_vars,
    loop_body (Δλ_of 0 0) (sin (U_of 0)) (cos (U_of 0))
              (sin (U_of (lit 45))) (cos (U_of (lit 45))) (Δλ_of 0 0)
    = Tested vs /\
    0 < σ vs < PI /\ 1 <= A vs <= 1 + 7 / 4000.
Proof.
  destruct meridian_45_run as (vs & Hb & _).
  exists vs. split; [ exact Hb | ].
  destruct (Vincenty_loop_invariants 0 0 (lit 45) 0 (Δλ_of 0 0) vs Hb)
    as (_ & _ & Hσ & _ & _ & _ & _ & _ & HA & _).
  split; [ exact Hσ | exact HA ].
Defined.

(** A call of Vincenty returns 0, the sentinel, or a positive distance
    below 20043.6 kilometres. *)
Lemma Vincenty_bounded (lat1 lon1 lat2 lon2 : R) (unit : Units) :
  Vincenty lat1 lon1 lat2 lon2 unit = 0 \/
  Vincenty lat1 lon1 lat2 lon2 unit = -1 \/
  0 < Vincenty lat1 lon1 lat2 lon2 unit < 20043.6 * unit_factor unit.
Proof.
  destruct (Vincenty_loop_ends lat1 lon1 lat2 lon2) as (ex & Hrun & Hret).
  rewrite Hret. rewrite Vincenty_loop_eq in Hrun.
  assert (Hvars : forall (il : Z) (vs : loop_vars),
            ex = LoopBreak il vs \/ ex = LoopEnd il vs ->
            try_catch_all (after_loop unit ex) (lit (-1)) = -1 \/
            0 < try_catch_all (after_loop unit ex) (lit (-1))
              < 20043.6 * unit_factor unit).
  { intros il vs Hex.
    assert (Hb : exists l : R,
              loop_body (Δλ_of lon1 lon2) (sin (U_of lat1))
                (cos (U_of lat1)) (sin (U_of lat2)) (cos (U_of lat2)) l
              = Tested vs).
    { destruct Hex as [-> | ->].
      - apply (do_while_exit_vars _ _ _ _ _ _ _ _ _ _ (or_introl Hrun)).
      - apply (do_while_exit_vars _ _ _ _ _ _ _ _ _ _ (or_intror Hrun)). }
    destruct Hb as [l Hb].
    assert (Hval : try_catch_all (after_loop unit ex) (lit (-1))
              = if (il =? 0)%Z then lit (-1)
                else (b * A vs * (σ vs - Δσ vs) / lit 1000.0
                      * unit_factor unit)%D).
    { destruct Hex as [-> | ->]; cbn [after_loop];
        destruct (il =? 0)%Z; reflexivity. }
    rewrite Hval. destruct (il =? 0)%Z; [ left; apply sentinel_R | right ].
    pose proof (distance_positive _ _ _ _ _ _ _ unit
                  (sin2_cos2 _) (sin2_cos2 _) Hb) as Hpos.
    split; [ exact Hpos | ].
    destruct (body_invariants _ _ _ _ _ _ _
                (sin2_cos2 _) (sin2_cos2 _) Hb)
      as (Hs & _ & Hσ & _ & _ & _ & _ & _ & HA & _ & HΔσ).
    pose proof PI_decimals as Hpi.
    pose proof (unit_factor_pos unit) as Hu.
    cbn [dsub dmul ddiv RealArith].
    assert (Hb' : 0 < b (D:=R) < 6356753).
    { split; [ apply b_pos | ].
      unfold b. cbn [dsub dmul RealArith]. rewrite a_R, f_R, lit_one_R.
      lra. }
    destruct (body_distance_positive _ _ _ _ _ _ _
                (sin2_cos2 _) (sin2_cos2 _) Hb) as [_ Hlow].
    assert (Hang : 0 < σ vs - Δσ vs < 31476 / 10000) by lra.
    assert (HbA : 0 < b * A vs < 6356753 * (1 + 7 / 4000)).
    { split; [ apply Rmult_lt_0_compat; lra | ].
      assert (b * A vs <= b * (1 + 7 / 4000))
        by (apply Rmult_le_compat_l; lra).
      lra. }
    assert (Hprod : b * A vs * (σ vs - Δσ vs)
                    < 6356753 * (1 + 7 / 4000) * (31476 / 10000)).
    { assert (b * A vs * (σ vs - Δσ vs) <= b * A vs * (31476 / 10000))
        by (apply Rmult_le_compat_l; lra).
      lra. }
    assert (Hlit : lit (D:=R) 1000.0 = 1000) by (real_arith; lra).
    rewrite Hlit.
    apply Rmult_lt_compat_r; [ exact Hu | ]. lra. }
  destruct ex as [v|il vs|il vs].
  - left. rewrite (do_while_return_value _ _ _ _ _ _ _ _ _ Hrun).
    cbn [after_loop try_catch_all]. apply lit_zero_R.
  - right. apply (Hvars il vs). left. reflexivity.
  - right. apply (Hvars il vs). right. reflexivity.
Qed.

(** X11.  Over the reals a distance returned by Vincenty is below 20044
    kilometres, or 12455 miles: a call returns 0, the sentinel -1, or a
    positive distance below that bound. *)
Theorem Vincenty_upper_bound (lat1 lon1 lat2 lon2 : R) :
  (Vincenty lat1 lon1 lat2 lon2 SI = 0 \/
   Vincenty lat1 lon1 lat2 lon2 SI = -1 \/
   0 < Vincenty lat1 lon1 lat2 lon2 SI < 20044) /\
  (Vincenty lat1 lon1 lat2 lon2 US = 0 \/
   Vincenty lat1 lon1 lat2 lon2 US = -1 \/
   0 < Vincenty lat1 lon1 lat2 lon2 US < 12455).
Proof.
  pose proof (Vincenty_bounded lat1 lon1 lat2 lon2) as Hd.
  split.
  - destruct (Hd SI) as [H|[H|H]]; [ tauto | tauto | ].
    rewrite unit_factor_R in H. right. right. lra.
  - destruct (Hd US) as [H|[H|H]]; [ tauto | tauto | ].
    rewrite unit_factor_R in H. right. right. lra.
Qed.

End LoopInvariants.

(** ** No division by zero in the three methods *)

Section NoDivisionByZero.

Local Open Scope R_scope.

Ltac constant_divisors :=
  repeat match goal with
  | |- context [Req_dec_T (Q2R ?q) 0] =>
      destruct (Req_dec_T (Q2R q) 0) as [E|_];
      [ exfalso; revert E; unfold Q2R; cbn [Qnum Qden]; lra
      | cbn [trap1 trap2 trap_div] ]
  end.

Lemma toRad_untrapped : toRad (D:=option R) = Some (toRad (D:=R)).
Proof.
  unfold toRad. cbn [π lit ddiv TrapArith RealArith trap_div].
  constant_divisors. reflexivity.
Qed.

Lemma unit_factor_untrapped (unit : Units) :
  unit_factor (D:=option R) unit = Some (unit_factor (D:=R) unit).
Proof.
  destruct unit; unfold unit_factor, mi2km;
    cbn [lit ddiv TrapArith RealArith trap_div]; constant_divisors;
    reflexivity.
Qed.

Lemma Haversine_untrapped (lat1 lon1 lat2 lon2 : R) (unit : Units) :
  Haversine (Some lat1) (Some lon1) (Some lat2) (Some lon2) unit
  = Some (Haversine lat1 lon1 lat2 lon2 unit).
Proof.
  unfold Haversine, Haversine_body, try_catch_all.
  rewrite toRad_untrapped, unit_factor_untrapped.
  cbn [lit dadd dsub dmul ddiv sin asin cos sqrt TrapArith RealArith
       trap1 trap2 trap_div meanR].
  constant_divisors. reflexivity.
Qed.

Lemma SLC_untrapped (lat1 lon1 lat2 lon2 : R) (unit : Units) :
  SLC (Some lat1) (Some lon1) (Some lat2) (Some lon2) unit
  = Some (SLC lat1 lon1 lat2 lon2 unit).
Proof.
  unfold SLC, SLC_body, try_catch_all.
  rewrite toRad_untrapped, unit_factor_untrapped. reflexivity.
Qed.

Lemma U_of_untrapped (lat : R) : U_of (Some lat) = Some (U_of lat).
Proof.
  unfold U_of. rewrite toRad_untrapped, f_untrapped. reflexivity.
Qed.

Lemma Δλ_of_untrapped (lon1 lon2 : R) :
  Δλ_of (Some lon1) (Some lon2) = Some (Δλ_of lon1 lon2).
Proof. unfold Δλ_of. rewrite toRad_untrapped. reflexivity. Qed.

Lemma converged_untrapped (vs : loop_vars) :
  converged (untrapped_vars vs) = converged vs.
Proof. reflexivity. Qed.

Lemma do_while_untrapped (Δλ s1 c1 s2 c2 : R) (fuel : nat) :
  forall (iterLimit : Z) (l : R),
    do_while (Some Δλ) (Some s1) (Some c1) (Some s2) (Some c2)
             fuel iterLimit (Some l)
    = option_map untrapped_exit (do_while Δλ s1 c1 s2 c2 fuel iterLimit l).
Proof.
  induction fuel as [|fuel IH]; intros iterLimit l.
  - reflexivity.
  - rewrite !do_while_S, body_untrapped.
    destruct (loop_body Δλ s1 c1 s2 c2 l) as [v|vs]; [ reflexivity | ].
    cbn [untrapped]. rewrite converged_untrapped.
    destruct (converged vs); [ reflexivity | ].
    destruct (_ >? _)%Z; [ | reflexivity ].
    change (λ (untrapped_vars vs)) with (Some (λ vs)). apply IH.
Qed.

Lemma after_loop_untrapped (unit : Units) (ex : loop_exit) :
  try_catch_all (after_loop unit (untrapped_exit ex)) (lit (-1))
  = Some (try_catch_all (after_loop unit ex) (lit (-1))).
Proof.
  assert (Hs : forall (vs : loop_vars),
            (b * A (untrapped_vars vs) *
             (σ (untrapped_vars vs) - Δσ (untrapped_vars vs)) / lit 1000.0
             * unit_factor unit)%D
            = Some (b * A vs * (σ vs - Δσ vs) / lit 1000.0
                    * unit_factor unit)%D).
  { intros vs. rewrite unit_factor_untrapped, b_untrapped.
    cbn [untrapped_vars A σ Δσ lit dsub dmul ddiv TrapArith RealArith
         trap2 trap_div].
    constant_divisors. reflexivity. }
  destruct ex as [v|il vs|il vs]; cbn [untrapped_exit after_loop];
    [ reflexivity | | ];
    destruct (il =? 0)%Z; cbn [try_catch_all];
    first [ reflexivity | apply Hs ].
Qed.

Lemma Vincenty_untrapped (lat1 lon1 lat2 lon2 : R) (unit : Units) :
  Vincenty (Some lat1) (Some lon1) (Some lat2) (Some lon2) unit
  = Some (Vincenty lat1 lon1 lat2 lon2 unit).
Proof.
  assert (Hloop : Vincenty_loop 100 (Some lat1) (Some lon1) (Some lat2)
                    (Some lon2)
                  = option_map untrapped_exit
                      (Vincenty_loop 100 lat1 lon1 lat2 lon2)).
  { rewrite !Vincenty_loop_eq, !U_of_untrapped, Δλ_of_untrapped.
    apply do_while_untrapped. }
  destruct (Vincenty_loop_ends lat1 lon1 lat2 lon2) as (ex & Hrun & Hret).
  rewrite Hrun in Hloop. cbn [option_map] in Hloop.
  rewrite (Vincenty_exit 100 _ _ _ _ unit _ Hloop).
  rewrite after_loop_untrapped, Hret. reflexivity.
Qed.

(** X12.  On real inputs, on a machine where a division by zero is an
    error, each of the three methods returns the number it returns over
    the reals and not the error: no call divides by zero.  The divisors
    are non-zero constants, the sine of σ after its zero test, and cos²α
    behind its guard. *)
Theorem no_division_by_zero (lat1 lon1 lat2 lon2 : R) (unit : Units) :
  Haversine (Some lat1) (Some lon1) (Some lat2) (Some lon2) unit
  = Some (Haversine lat1 lon1 lat2 lon2 unit) /\
  SLC (Some lat1) (Some lon1) (Some lat2) (Some lon2) unit
  = Some (SLC lat1 lon1 lat2 lon2 unit) /\
  Vincenty (Some lat1) (Some lon1) (Some lat2) (Some lon2) unit
  = Some (Vincenty lat1 lon1 lat2 lon2 unit).
Proof.
  split; [ apply Haversine_untrapped | ].
  split; [ apply SLC_untrapped | apply Vincenty_untrapped ].
Qed.

End NoDivisionByZero.

(** ** Exact real arithmetic: a spherical distance of zero *)

Section ZeroDistance.

Local Open Scope R_scope.

Local Abbreviation rsin := Rtrigo_def.sin.
Local Abbreviation rcos := Rtrigo_def.cos.






End ZeroDistance.

(** ** Exact real arithmetic: spherical arcs of meridians and of the equator *)

Section SphericalArcs.

Local Open Scope R_scope.

Local Abbreviation rsin := Rtrigo_def.sin.
Local Abbreviation rcos := Rtrigo_def.cos.






(** X16.  Over the reals the spherical distance from a pole does not
    depend on the longitudes: from the north pole it is the colatitude
    [(90 − lat)] in radians times the radius, from the south pole
    [(90 + lat)] in radians times the radius, for a latitude between -90
    and 90. *)
Theorem spherical_from_pole (lat lon1 lon2 : R) (unit : Units) :
  -90 <= lat <= 90 ->
  Haversine 90 lon1 lat lon2 unit
  = (90 - lat) * (PI / 180) * 6371.009 * unit_factor unit /\
  SLC 90 lon1 lat lon2 unit
  = (90 - lat) * (PI / 180) * 6371.009 * unit_factor unit /\
  Haversine (-90) lon1 lat lon2 unit
  = (90 + lat) * (PI / 180) * 6371.009 * unit_factor unit /\
  SLC (-90) lon1 lat lon2 unit
  = (90 + lat) * (PI / 180) * 6371.009 * unit_factor unit.
Proof.
  intros Hlat. pose proof PI_RGT_0 as Hpi.
  assert (Hφ : - (PI / 2) <= lat * (PI / 180) <= PI / 2).
  { split.
    - assert (-90 * (PI / 180) <= lat * (PI / 180))
        by (apply Rmult_le_compat_r; lra).
      lra.
    - assert (lat * (PI / 180) <= 90 * (PI / 180))
        by (apply Rmult_le_compat_r; lra).
      lra. }
  assert (Hn : SLC 90 lon1 lat lon2 unit
               = (90 - lat) * (PI / 180) * 6371.009 * unit_factor unit).
  { rewrite SLC_R. unfold central_cos.
    replace (90 * (PI / 180)) with (PI / 2) by field.
    rewrite sin_PI2, cos_PI2.
    replace (1 * rsin (lat * (PI / 180)) +
             0 * rcos (lat * (PI / 180)) * rcos ((lon2 - lon1) * (PI / 180)))
      with (rcos (PI / 2 - lat * (PI / 180)))
      by (rewrite cos_shift; ring).
    rewrite acos_cos by lra. f_equal. f_equal. field. }
  assert (Hs : SLC (-90) lon1 lat lon2 unit
               = (90 + lat) * (PI / 180) * 6371.009 * unit_factor unit).
  { rewrite SLC_R. unfold central_cos.
    replace (-90 * (PI / 180)) with (- (PI / 2)) by field.
    rewrite sin_neg, cos_neg, sin_PI2, cos_PI2.
    replace (- (1) * rsin (lat * (PI / 180)) +
             0 * rcos (lat * (PI / 180)) * rcos ((lon2 - lon1) * (PI / 180)))
      with (rcos (PI / 2 + lat * (PI / 180))).
    - rewrite acos_cos by lra. f_equal. f_equal. field.
    - rewrite cos_plus, sin_PI2, cos_PI2. ring. }
  rewrite !spherical_agree. repeat split; assumption.
Qed.

Lemma spherical_from_pole_witness :
  Haversine 90 0 45 120 SI = (90 - 45) * (PI / 180) * 6371.009 * unit_factor SI.
Proof.
  apply (spherical_from_pole 45 0 120 SI). lra.
Defined.

End SphericalArcs.

(** ** Vincenty returns a number *)

Section VincentyNumber.

Local Open Scope R_scope.

Lemma f_X : f (D:=xdouble) = Fin (f (D:=R)).
Proof.
  unfold f. cbn [lit ddiv XArith RealArith xdiv].
  destruct (Req_dec_T (Q2R 298.257223563) 0) as [E|_]; [ | reflexivity ].
  exfalso. revert E. unfold Q2R. cbn [Qnum Qden]. lra.
Qed.

Lemma a_X : a (D:=xdouble) = Fin (a (D:=R)).
Proof. reflexivity. Qed.

Lemma b_X : b (D:=xdouble) = Fin (b (D:=R)).
Proof. unfold b. rewrite f_X. reflexivity. Qed.

(** Decides the zero tests of the divisors. *)
Ltac finite_quotients :=
  repeat match goal with
  | |- context [Req_dec_T ?y 0] =>
      destruct (Req_dec_T y 0) as [E|_];
      [ exfalso;
        first [ contradiction
              | revert E; unfold Q2R; cbn [Qnum Qden]; lra
              | nra ]
      | cbn [xadd xsub xneg xmul xdiv] ]
  end.

(** On finite values a body execution forms finite values only, the ones
    it forms over the reals. *)
Lemma body_finite (Δλ s1 c1 s2 c2 l : R) :
  loop_body (Fin Δλ) (Fin s1) (Fin c1) (Fin s2) (Fin c2) (Fin l)
  = finite_body (loop_body Δλ s1 c1 s2 c2 l).
Proof.
  unfold loop_body. rewrite f_X, a_X, b_X.
  cbn [lit dadd dsub dmul ddiv deqb dltb sin cos atan2 sqrt
       XArith RealArith xadd xsub xneg xmul xperiodic xsqrt].
  match goal with
  | |- context [Rlt_dec ?r 0] =>
      destruct (Rlt_dec r 0) as [Hneg|_]
  end.
  { exfalso. revert Hneg.
    match goal with
    | |- ?x * ?x + ?y * ?y < 0 -> False =>
        pose proof (Rle_0_sqr x) as Hx; pose proof (Rle_0_sqr y) as Hy;
        unfold Rsqr in Hx, Hy; lra
    end. }
  set (sσ := R_sqrt.sqrt _).
  cbn [xeqb].
  assert (H0 : Q2R 0.0 = 0) by (unfold Q2R; cbn [Qnum Qden]; lra).
  rewrite !H0.
  destruct (Req_bool sσ 0) eqn:Eσ; [ reflexivity | ].
  apply Req_bool_false_inv in Eσ.
  cbn [xdiv xatan2]. destruct (Req_dec_T sσ 0) as [|_]; [ contradiction | ].
  cbn [xadd xsub xneg xmul xeqb negb].
  replace (Q2R 1.0 + - (c1 * c2 * Rtrigo_def.sin l / sσ *
                        (c1 * c2 * Rtrigo_def.sin l / sσ)))
    with (Q2R 1.0 - c1 * c2 * Rtrigo_def.sin l / sσ *
                    (c1 * c2 * Rtrigo_def.sin l / sσ)) by ring.
  set (q := Q2R 1.0 - _).
  pose proof b_pos as Hb.
  destruct (Req_bool q 0) eqn:Eq; cbn [negb xdiv xadd xsub xneg xmul].
  - finite_quotients. cbn [finite_body finite_vars].
    cbn [λ λPrev sinσ cosσ σ sinα cos2α cos2σM u2 A B Δσ].
    unfold Rminus. reflexivity.
  - apply Req_bool_false_inv in Eq. finite_quotients.
    cbn [finite_body finite_vars].
    cbn [λ λPrev sinσ cosσ σ sinα cos2α cos2σM u2 A B Δσ].
    unfold Rminus. reflexivity.
Qed.

Lemma converged_finite (vs : loop_vars) :
  converged (finite_vars vs) = converged vs.
Proof. reflexivity. Qed.

Lemma do_while_finite (Δλ s1 c1 s2 c2 : R) (fuel : nat) :
  forall (iterLimit : Z) (l : R),
    do_while (Fin Δλ) (Fin s1) (Fin c1) (Fin s2) (Fin c2)
             fuel iterLimit (Fin l)
    = option_map finite_exit (do_while Δλ s1 c1 s2 c2 fuel iterLimit l).
Proof.
  induction fuel as [|fuel IH]; intros iterLimit l.
  - reflexivity.
  - rewrite !do_while_S, body_finite.
    destruct (loop_body Δλ s1 c1 s2 c2 l) as [v|vs]; [ reflexivity | ].
    cbn [finite_body]. rewrite converged_finite.
    destruct (converged vs); [ reflexivity | ].
    destruct (_ >? _)%Z; [ | reflexivity ].
    change (λ (finite_vars vs)) with (Fin (λ vs)). apply IH.
Qed.

Lemma after_loop_finite (unit : Units) (ex : loop_exit) :
  try_catch_all (after_loop unit (finite_exit ex)) (lit (-1))
  = Fin (try_catch_all (after_loop unit ex) (lit (-1))).
Proof.
  assert (Hs : forall (vs : loop_vars),
            (b * A (finite_vars vs) *
             (σ (finite_vars vs) - Δσ (finite_vars vs)) / lit 1000.0
             * unit_factor unit)%D
            = Fin (b * A vs * (σ vs - Δσ vs) / lit 1000.0
                   * unit_factor unit)%D).
  { intros vs. rewrite unit_factor_X, b_X.
    cbn [finite_vars A σ Δσ lit dsub dmul ddiv XArith RealArith
         xadd xsub xneg xmul xdiv].
    finite_quotients. unfold Rminus. reflexivity. }
  destruct ex as [v|il vs|il vs]; cbn [finite_exit after_loop];
    [ reflexivity | | ];
    destruct (il =? 0)%Z; cbn [try_catch_all];
    first [ reflexivity | apply Hs ].
Qed.

(** The reduced latitude of a finite latitude: no number where the
    tangent has none. *)
Lemma U_of_finite (lat : R) :
  U_of (Fin lat) = NaN \/ U_of (Fin lat) = Fin (U_of lat).
Proof.
  unfold U_of. rewrite Fin_toRad, f_X, toRad_R.
  cbn [tan XArith xtan].
  destruct (Req_dec_T (Rtrigo_def.cos (lat * (PI / 180))) 0) as [|_].
  - left. cbn [dmul atan XArith]. rewrite xmul_NaN_r. reflexivity.
  - right. cbn [lit dsub dmul atan XArith RealArith xsub xadd xneg xmul xatan].
    unfold Rminus. reflexivity.
Qed.

Lemma Δλ_of_finite (lon1 lon2 : R) :
  Δλ_of (Fin lon1) (Fin lon2) = Fin (Δλ_of lon1 lon2).
Proof.
  unfold Δλ_of. rewrite toRad_X, toRad_R.
  cbn [dsub dmul XArith RealArith xsub xadd xneg xmul].
  unfold Rminus. reflexivity.
Qed.

Lemma Vincenty_finite (lat1 lon1 lat2 lon2 : R) (unit : Units) :
  Vincenty (Fin lat1) (Fin lon1) (Fin lat2) (Fin lon2) unit = lit (-1) \/
  Vincenty (Fin lat1) (Fin lon1) (Fin lat2) (Fin lon2) unit
  = Fin (Vincenty lat1 lon1 lat2 lon2 unit).
Proof.
  destruct (U_of_finite lat1) as [H1|H1].
  { left. apply Vincenty_poisoned. left. rewrite H1. split; reflexivity. }
  destruct (U_of_finite lat2) as [H2|H2].
  { left. apply Vincenty_poisoned. right. left. rewrite H2.
    split; reflexivity. }
  right.
  assert (Hloop : Vincenty_loop 100 (Fin lat1) (Fin lon1) (Fin lat2)
                    (Fin lon2)
                  = option_map finite_exit
                      (Vincenty_loop 100 lat1 lon1 lat2 lon2)).
  { rewrite !Vincenty_loop_eq, H1, H2, Δλ_of_finite.
    apply do_while_finite. }
  destruct (Vincenty_loop_ends lat1 lon1 lat2 lon2) as (ex & Hrun & Hret).
  rewrite Hrun in Hloop. cbn [option_map] in Hloop.
  rewrite (Vincenty_exit 100 _ _ _ _ unit _ Hloop).
  rewrite after_loop_finite, Hret. reflexivity.
Qed.

(** X17.  Whatever the four inputs are (finite, NaN or infinite),
    Vincenty returns a number, never NaN and never an infinity: 0, the
    sentinel -1, or a positive distance below 20044 kilometres (12455
    miles). *)
Theorem Vincenty_returns_a_number (lat1 lon1 lat2 lon2 : xdouble)
    (unit : Units) :
  exists r : R,
    Vincenty lat1 lon1 lat2 lon2 unit = Fin r /\
    (r = 0 \/ r = -1 \/ 0 < r < 20044).
Proof.
  assert (Hsent : lit (D:=xdouble) (-1) = Fin (-1)).
  { cbn [lit XArith]. f_equal. unfold Q2R. cbn [Qnum Qden]. lra. }
  destruct (not_finite lat1 || not_finite lon1 || not_finite lat2
            || not_finite lon2) eqn:Hn.
  - exists (-1). split; [ | right; left; reflexivity ].
    rewrite <- Hsent.
    apply (Vincenty_not_finite lat1 lon1 lat2 lon2 unit Hn).
  - destruct lat1 as [| | |r1]; try discriminate.
    destruct lon1 as [| | |t1]; try discriminate.
    destruct lat2 as [| | |r2]; try discriminate.
    destruct lon2 as [| | |t2]; try discriminate.
    destruct (Vincenty_finite r1 t1 r2 t2 unit) as [H|H].
    + exists (-1). split; [ | right; left; reflexivity ].
      rewrite <- Hsent. exact H.
    + exists (Vincenty r1 t1 r2 t2 unit). split; [ exact H | ].
      destruct (Vincenty_bounded r1 t1 r2 t2 unit) as [Hb|[Hb|Hb]];
        [ left; exact Hb | right; left; exact Hb | right; right ].
      pose proof (unit_factor_R unit) as Hu. destruct unit; lra.
Qed.

End VincentyNumber.
